(** * coinglass-bot: the liquidation monitor of [server.js]

    A shallow embedding of the monitor (formatting helpers, the
    [checkLiquidations] cycle, the scheduler and the [/set-params]
    handler) together with the parts of the JavaScript runtime the code
    relies on.  JavaScript numbers are IEEE-754 binary64 values and are
    modelled by the primitive floats of the standard library, so [>],
    [!==], [*] and [/] below are the very operations Node performs.  An
    [async] function is a resumption: it runs up to its next [await] and
    hands the event loop what it will do when the promise has settled, so
    that cycles overlap here as they do in Node. *)

From Stdlib Require Import ZArith List String Ascii Bool Lia Floats.
From stdpp Require Import base option gmap strings.
Import ListNotations.

Local Open Scope string_scope.
Local Open Scope list_scope.
Local Open Scope Z_scope.

(** ** The JavaScript runtime *)

Module JS.

(** *** Numbers *)

Definition number : Set := float.

(** The Number value of an integer (round to nearest, ties to even). *)
Definition of_Z (z : Z) : number :=
  SF2Prim (binary_normalize prec emax z 0 false).

(** [isNaN(x)] on a Number. *)
Definition isNaN (x : number) : bool := PrimFloat.is_nan x.

(** [a > b], [a >= b] and [a !== b] on Numbers. *)
Definition gt (a b : number) : bool := PrimFloat.ltb b a.
Definition ge (a b : number) : bool := PrimFloat.leb b a.
Definition strict_neq (a b : number) : bool := negb (PrimFloat.eqb a b).

(** [Math.floor]: a finite value [±m·2^e] with [e < 0] is sent to the
    integer below it; integers, zeros, infinities and NaN are fixed. *)
Definition Math_floor (x : number) : number :=
  match Prim2SF x with
  | S754_finite s m e =>
      if 0 <=? e then x
      else of_Z (Z.shiftr (cond_Zopp s (Zpos m)) (- e))
  | _ => x
  end.

(** [Math.pow(10, d)] for a small non-negative integer [d]; the result is
    exact up to [d = 22]. *)
Definition Math_pow10 (d : nat) : number := of_Z (10 ^ Z.of_nat d).

(** *** Decimal digits of a Number

    [Number::toString] and the number formatter both start from the
    shortest decimal that reads back as the same Number: digits
    [d1 .. dk] and a position [n] with value [0.d1..dk × 10^n]. *)

(** A positive finite value [m·2^e] seen as the fraction [N/D] of a power
    of ten [10^p]: [m·2^e = (N/D)·10^p]. *)
Definition scaled_num (m e p : Z) : Z := m * 2 ^ Z.max e 0 * 10 ^ Z.max (- p) 0.
Definition scaled_den (e p : Z) : Z := 2 ^ Z.max (- e) 0 * 10 ^ Z.max p 0.

(** [10^(n-1) <= m·2^e < 10^n]: the position of the decimal point. *)
Definition below_pow10 (m e n : Z) : bool :=
  scaled_num m e n <? scaled_den e n.

Fixpoint point_up (fuel : nat) (m e n : Z) : Z :=
  match fuel with
  | O => n
  | S fuel' => if below_pow10 m e n then n else point_up fuel' m e (n + 1)
  end.

Fixpoint point_down (fuel : nat) (m e n : Z) : Z :=
  match fuel with
  | O => n
  | S fuel' =>
      if below_pow10 m e (n - 1) then point_down fuel' m e (n - 1) else n
  end.

Definition decimal_point (m e : Z) : Z :=
  let guess := (Z.log2 m + e) * 30103 / 100000 in
  point_up 8 m e (point_down 8 m e guess).

(** The reals that round to [m·2^e] lie between the midpoints to its two
    neighbours; the lower neighbour is twice as close when [m] is the
    least mantissa of its binade.  Bounds are in units of [2^(e-2)]. *)
Definition round_lo (m e : Z) : Z :=
  if (m =? 2 ^ 52) && (-1074 <? e) then 4 * m - 1 else 4 * m - 2.
Definition round_hi (m : Z) : Z := 4 * m + 2.

(** Does the decimal [s·10^p] read back as [m·2^e]? *)
Definition reads_back (m e p s : Z) : bool :=
  let c := s * scaled_den e p * (4 * m) in
  let lo := scaled_num m e p * round_lo m e in
  let hi := scaled_num m e p * round_hi m in
  if Z.even m then (lo <=? c) && (c <=? hi) else (lo <? c) && (c <? hi).

(** The best [k]-digit candidate, if one reads back: the closest of the
    two [k]-digit decimals around the value (the even one on a tie). *)
Definition candidate (m e n : Z) (k : Z) : option (Z * Z) :=
  let p := n - k in
  let N := scaled_num m e p in
  let D := scaled_den e p in
  let s := N / D in
  let r := N mod D in
  let below := reads_back m e p s in
  let above := reads_back m e p (s + 1) in
  let pick_above := (D - r <? r) || ((D - r =? r) && Z.odd s) in
  if below && above then Some (if pick_above then s + 1 else s, p)
  else if below then Some (s, p)
  else if above then Some (s + 1, p)
  else None.

Fixpoint shortest_from (fuel : nat) (m e n k : Z) : Z * Z :=
  match fuel with
  | O => (scaled_num m e (n - k) / scaled_den e (n - k), n - k)
  | S fuel' =>
      match candidate m e n k with
      | Some sp => sp
      | None => shortest_from fuel' m e n (k + 1)
      end
  end.

(** Decimal digits of a non-negative integer, most significant first. *)
Fixpoint digits_fuel (fuel : nat) (z : Z) (acc : list Z) : list Z :=
  match fuel with
  | O => acc
  | S fuel' =>
      if z <? 10 then z :: acc else digits_fuel fuel' (z / 10) (z mod 10 :: acc)
  end.

Definition digits_of (z : Z) : list Z :=
  digits_fuel (S (Z.to_nat (Z.log2 z))) z [].

Fixpoint strip_zeros_rev (ds : list Z) : list Z :=
  match ds with
  | 0 :: ds' => strip_zeros_rev ds'
  | _ => ds
  end.

Definition strip_trailing_zeros (ds : list Z) : list Z :=
  rev (strip_zeros_rev (rev ds)).

(** The shortest digits [d1..dk] and the position [n] of a positive
    finite [m·2^e]. *)
Definition shortest_digits (m e : Z) : list Z * Z :=
  let n0 := decimal_point m e in
  let '(s, p) := shortest_from 17 m e n0 1 in
  let ds := digits_of s in
  (strip_trailing_zeros ds, Z.of_nat (length ds) + p).

(** *** Decimal strings *)

Definition digit_char (d : Z) : ascii := ascii_of_nat (48 + Z.to_nat d).

Fixpoint string_of_digits (ds : list Z) : string :=
  match ds with
  | [] => ""
  | d :: ds' => String (digit_char d) (string_of_digits ds')
  end.

Definition zeros (n : Z) : list Z := repeat 0 (Z.to_nat n).

Definition sign_string (s : bool) : string := if s then "-" else "".

(** [Number::toString(x, 10)] on the digits [ds] at position [n]. *)
Definition render_shortest (ds : list Z) (n : Z) : string :=
  let k := Z.of_nat (length ds) in
  if (k <=? n) && (n <=? 21) then
    string_of_digits (ds ++ zeros (n - k))
  else if (0 <? n) && (n <=? 21) then
    string_of_digits (firstn (Z.to_nat n) ds) +:+ "."
      +:+ string_of_digits (skipn (Z.to_nat n) ds)
  else if (-6 <? n) && (n <=? 0) then
    "0." +:+ string_of_digits (zeros (- n) ++ ds)
  else
    let exponent :=
      (if 0 <=? n - 1 then "+" else "-")
        +:+ string_of_digits (digits_of (Z.abs (n - 1))) in
    match ds with
    | [d] => string_of_digits [d] +:+ "e" +:+ exponent
    | d :: ds' =>
        string_of_digits [d] +:+ "." +:+ string_of_digits ds' +:+ "e" +:+ exponent
    | [] => ""
    end.

(** [x.toString()] for a Number [x]. *)
Definition Number_toString (x : number) : string :=
  match Prim2SF x with
  | S754_nan => "NaN"
  | S754_zero _ => "0"
  | S754_infinity s => sign_string s +:+ "Infinity"
  | S754_finite s m e =>
      let '(ds, n) := shortest_digits (Zpos m) e in
      sign_string s +:+ render_shortest ds n
  end.

(** Thousands separators of the [en-US] locale. *)
Fixpoint group_rev (ds : list Z) (i : nat) : string -> string :=
  match ds with
  | [] => fun acc => acc
  | d :: ds' =>
      fun acc =>
        let acc' := String (digit_char d) acc in
        match ds', i with
        | _ :: _, 2%nat => group_rev ds' 0 (String "," acc')
        | _, _ => group_rev ds' (S i) acc'
        end
  end.

Definition group_thousands (ds : list Z) : string := group_rev (rev ds) 0 "".

Definition pad_left (width : nat) (ds : list Z) : list Z :=
  repeat 0 (width - length ds) ++ ds.

(** The decimal [0.d1..dk × 10^n] in units of [10^-f], rounded half away
    from zero (the formatter's default rounding mode). *)
Definition round_half_expand (ds : list Z) (n : Z) (f : Z) : Z :=
  let S := fold_left (fun acc d => 10 * acc + d) ds 0 in
  let shift := n - Z.of_nat (length ds) + f in
  if 0 <=? shift then S * 10 ^ shift
  else
    let unit := 10 ^ (- shift) in
    S / unit + (if unit <=? 2 * (S mod unit) then 1 else 0).

(** [x.toLocaleString('en-US', { minimumFractionDigits: f,
    maximumFractionDigits: f })]: the shortest decimal of [x] rounded to
    [f] fraction digits, the integer part grouped by thousands. *)
Definition toLocaleString_en_US (f : nat) (x : number) : string :=
  let fixed (ds : list Z) (n : Z) : string :=
    let H := round_half_expand ds n (Z.of_nat f) in
    let unit := 10 ^ Z.of_nat f in
    group_thousands (digits_of (H / unit))
      +:+ (if f is O then ""
          else "." +:+ string_of_digits (pad_left f (digits_of (H mod unit)))) in
  match Prim2SF x with
  | S754_nan => "NaN"
  | S754_zero s => sign_string s +:+ fixed [] 0
  | S754_infinity s => sign_string s +:+ "∞"
  | S754_finite s m e =>
      let '(ds, n) := shortest_digits (Zpos m) e in
      sign_string s +:+ fixed ds n
  end.

(** *** Reading numbers *)

(** The Number nearest to the decimal [±D·10^E] ([0 <= D]), rounded once.
    Decimals beyond [10^400] or below [10^-400] are decided without
    building the power of ten. *)
Definition decimal_to_number (neg : bool) (D E : Z) : number :=
  let magnitude := E + Z.of_nat (length (digits_of D)) in
  if D =? 0 then SF2Prim (S754_zero neg)
  else if 400 <? magnitude then SF2Prim (S754_infinity neg)
  else if magnitude <? -400 then SF2Prim (S754_zero neg)
  else if 0 <=? E then
    SF2Prim (binary_normalize prec emax (cond_Zopp neg (D * 10 ^ E)) 0 false)
  else
    let '(q, e, l) := SFdiv_core_binary prec emax D 0 (10 ^ (- E)) 0 in
    SF2Prim (binary_round_aux prec emax neg q e l).

(** A JavaScript string is a sequence of UTF-16 code units.  It is held
    here in UTF-8, the encoding the source file and the network use (a
    surrogate that stands alone is held in the three bytes of its code
    point). *)
Definition byte (c : ascii) : Z := Z.of_nat (nat_of_ascii c).

(** [WhiteSpace] and [LineTerminator], by the bytes of the code point:
    U+0009 to U+000D and U+0020; U+00A0; U+1680, U+2000 to U+200A,
    U+2028, U+2029, U+202F, U+205F, U+3000 and U+FEFF. *)
Definition space1 (a : Z) : bool := (9 <=? a) && (a <=? 13) || (a =? 32).

Definition space2 (a b : Z) : bool := (a =? 194) && (b =? 160).

Definition space3 (a b c : Z) : bool :=
  (a =? 225) && (b =? 154) && (c =? 128)
  || (a =? 226) && (b =? 128)
     && ((128 <=? c) && (c <=? 138) || (c =? 168) || (c =? 169) || (c =? 175))
  || (a =? 226) && (b =? 129) && (c =? 159)
  || (a =? 227) && (b =? 128) && (c =? 128)
  || (a =? 239) && (b =? 187) && (c =? 191).

Fixpoint trim_start (s : string) : string :=
  match s with
  | String a s1 =>
      if space1 (byte a) then trim_start s1
      else
        match s1 with
        | String b s2 =>
            if space2 (byte a) (byte b) then trim_start s2
            else
              match s2 with
              | String c s3 =>
                  if space3 (byte a) (byte b) (byte c) then trim_start s3 else s
              | EmptyString => s
              end
        | EmptyString => s
        end
  | EmptyString => s
  end.

Fixpoint all_space (s : string) : bool :=
  match s with
  | String a s1 =>
      if space1 (byte a) then all_space s1
      else
        match s1 with
        | String b s2 =>
            if space2 (byte a) (byte b) then all_space s2
            else
              match s2 with
              | String c s3 => space3 (byte a) (byte b) (byte c) && all_space s3
              | EmptyString => false
              end
        | EmptyString => false
        end
  | EmptyString => true
  end.

(** The value of a digit in a radix up to 16, if it is one. *)
Definition digit_value (radix : Z) (c : ascii) : option Z :=
  let n := byte c in
  let v :=
    if (48 <=? n) && (n <=? 57) then n - 48
    else if (97 <=? n) && (n <=? 102) then n - 87
    else if (65 <=? n) && (n <=? 70) then n - 55
    else radix in
  if v <? radix then Some v else None.

(** The longest run of digits at the head of [s]: the number it extends
    [acc] to, the count of digits read, and the rest of the input. *)
Fixpoint span_digits (radix : Z) (s : string) (acc count : Z) : Z * Z * string :=
  match s with
  | String c s' =>
      match digit_value radix c with
      | Some v => span_digits radix s' (radix * acc + v) (count + 1)
      | None => (acc, count, s)
      end
  | EmptyString => (acc, count, s)
  end.

Definition parse_sign (s : string) : bool * string :=
  match s with
  | String "-" s' => (true, s')
  | String "+" s' => (false, s')
  | _ => (false, s)
  end.

(** [ExponentPart], read only when it is complete. *)
Definition parse_exponent (s : string) : Z * string :=
  match s with
  | String c s1 =>
      if (Ascii.eqb c "e" || Ascii.eqb c "E")%bool then
        let '(neg, s2) := parse_sign s1 in
        let '(v, count, s3) := span_digits 10 s2 0 0 in
        if count =? 0 then (0, s) else (cond_Zopp neg v, s3)
      else (0, s)
  | EmptyString => (0, s)
  end.

Fixpoint drop (n : nat) (s : string) : string :=
  match n, s with
  | S n', String _ s' => drop n' s'
  | _, _ => s
  end.

(** The longest prefix of [s] that is a [StrDecimalLiteral], as a Number,
    with the input left over; [None] when no prefix is one. *)
Definition parse_decimal_literal (s : string) : option (number * string) :=
  let '(neg, s0) := parse_sign s in
  if String.prefix "Infinity" s0 then
    Some (SF2Prim (S754_infinity neg), drop 8 s0)
  else
    let '(whole, ci, s1) := span_digits 10 s0 0 0 in
    let '(D, cf, s2) :=
      match s1 with
      | String "." s1' =>
          let '(D, cf, s2) := span_digits 10 s1' whole 0 in
          if (ci =? 0) && (cf =? 0) then (whole, 0, s1) else (D, cf, s2)
      | _ => (whole, 0, s1)
      end in
    if (ci =? 0) && (cf =? 0) then None
    else
      let '(E, s3) := parse_exponent s2 in
      Some (decimal_to_number neg D (E - cf), s3).

(** The global [parseFloat] applied to a string. *)
Definition parseFloat (s : string) : number :=
  match parse_decimal_literal (trim_start s) with
  | Some (x, _) => x
  | None => PrimFloat.nan
  end.

(** [StringToNumber]: the whole trimmed string must be a numeric literal;
    the empty string is [+0]. *)
Definition radix_of_prefix (c : ascii) : option Z :=
  if (Ascii.eqb c "x" || Ascii.eqb c "X")%bool then Some 16
  else if (Ascii.eqb c "o" || Ascii.eqb c "O")%bool then Some 8
  else if (Ascii.eqb c "b" || Ascii.eqb c "B")%bool then Some 2
  else None.

Definition StringToNumber (s : string) : number :=
  let t := trim_start s in
  let decimal :=
    match parse_decimal_literal t with
    | Some (x, rest) => if all_space rest then x else PrimFloat.nan
    | None => PrimFloat.nan
    end in
  match t with
  | EmptyString => PrimFloat.zero
  | String "0" (String c t') =>
      match radix_of_prefix c with
      | Some radix =>
          let '(v, count, rest) := span_digits radix t' 0 0 in
          if (0 <? count) && all_space rest then of_Z v else PrimFloat.nan
      | None => decimal
      end
  | _ => decimal
  end.

(** *** Values

    The values a parsed JSON body is made of, and [undefined]. *)

#[local] Unset Elimination Schemes.
Inductive value : Type :=
| VUndefined
| VNull
| VBool (b : bool)
| VNum (x : number)
| VStr (s : string)
| VArr (elems : list value)
| VObj (props : gmap string value).
#[local] Set Elimination Schemes.

(** What a thrown or rejected error shows to the handler: [error.code]. *)
Record js_error : Type := { code : option string }.

Definition TypeError : js_error := {| code := None |}.

(** [Array.prototype.join] on the strings of the elements, the first
    error going through. *)
Fixpoint join (l : list (js_error + string)) : js_error + string :=
  match l with
  | [] => inr ""
  | [x] => x
  | x :: l' =>
      match x with
      | inl error => inl error
      | inr first =>
          match join l' with
          | inl error => inl error
          | inr rest => inr (first +:+ "," +:+ rest)
          end
      end
  end.

(** [ToString].  An object of a parsed body has no method of its own: its
    [toString] is the inherited one, which answers [[object Object]],
    unless the object has a key of that name, whose value is no function,
    and then the conversion throws a [TypeError] (the inherited [valueOf]
    gives no primitive either).  An array joins its elements with commas,
    [null] and [undefined] elements giving the empty string. *)
Fixpoint ToString (v : value) : js_error + string :=
  match v with
  | VUndefined => inr "undefined"
  | VNull => inr "null"
  | VBool b => inr (if b then "true" else "false")
  | VNum x => inr (Number_toString x)
  | VStr s => inr s
  | VArr elems =>
      join (map (fun e => match e with
                          | VUndefined | VNull => inr ""
                          | _ => ToString e
                          end) elems)
  | VObj props =>
      if props !! "toString" is Some _ then inl TypeError else inr "[object Object]"
  end.

(** [ToBoolean]: the falsy values are [undefined], [null], [false],
    [±0], [NaN] and the empty string. *)
Definition ToBoolean (v : value) : bool :=
  match v with
  | VUndefined | VNull => false
  | VBool b => b
  | VNum x => negb (PrimFloat.eqb x PrimFloat.zero || isNaN x)
  | VStr s => negb (String.eqb s "")
  | VArr _ | VObj _ => true
  end.

(** [ToNumber]: an array or an object goes through its primitive, which
    is its string. *)
Definition ToNumber (v : value) : js_error + number :=
  match v with
  | VUndefined => inr PrimFloat.nan
  | VNull => inr PrimFloat.zero
  | VBool b => inr (if b then PrimFloat.one else PrimFloat.zero)
  | VNum x => inr x
  | VStr s => inr (StringToNumber s)
  | VArr _ | VObj _ =>
      match ToString v with
      | inl error => inl error
      | inr s => inr (StringToNumber s)
      end
  end.

(** [a || b]. *)
Definition or_else (a b : value) : value := if ToBoolean a then a else b.

(** An array index written the canonical way (["0"], ["17"]). *)
Definition array_index (name : string) : option nat :=
  let '(i, count, rest) := span_digits 10 name 0 0 in
  if (0 <? count) && String.eqb rest ""
     && String.eqb (string_of_digits (digits_of i)) name
  then Some (Z.to_nat i) else None.

(** The code units of a string, each as a string of its own: a code point
    of one to three bytes is one unit, a code point of four bytes is a
    pair of surrogates. *)
Definition char_width (a : Z) : nat :=
  if a <? 128 then 1 else if a <? 224 then 2 else if a <? 240 then 3 else 4.

Definition encode3 (x : Z) : string :=
  String (ascii_of_nat (Z.to_nat (224 + x / 4096)))
    (String (ascii_of_nat (Z.to_nat (128 + (x / 64) mod 64)))
       (String (ascii_of_nat (Z.to_nat (128 + x mod 64))) "")).

Definition surrogates (c : string) : list string :=
  match c with
  | String b0 (String b1 (String b2 (String b3 ""))) =>
      let cp := (byte b0 mod 8) * 262144 + (byte b1 mod 64) * 4096
                + (byte b2 mod 64) * 64 + byte b3 mod 64 in
      let v := cp - 65536 in
      [encode3 (55296 + v / 1024); encode3 (56320 + v mod 1024)]
  | _ => [c]
  end.

Fixpoint code_units_fuel (fuel : nat) (s : string) : list string :=
  match fuel, s with
  | S fuel', String a _ =>
      let n := char_width (byte a) in
      surrogates (String.substring 0 n s) ++ code_units_fuel fuel' (drop n s)
  | _, _ => []
  end.

Definition code_units (s : string) : list string :=
  code_units_fuel (String.length s) s.

(** [v.name] and [v[name]] for the names the program reads ([data],
    [length], an index, the two fields of a data point): reading a
    property of [undefined] or [null] throws; the other values show their
    own properties, which are the fields of an object and the elements and
    [length] of an array or string. *)
Definition get_property (v : value) (name : string) : js_error + value :=
  match v with
  | VUndefined | VNull => inl TypeError
  | VBool _ | VNum _ => inr VUndefined
  | VStr s =>
      if String.eqb name "length" then
        inr (VNum (of_Z (Z.of_nat (length (code_units s)))))
      else match array_index name with
           | Some i =>
               inr (match nth_error (code_units s) i with
                    | Some c => VStr c
                    | None => VUndefined
                    end)
           | None => inr VUndefined
           end
  | VArr elems =>
      if String.eqb name "length" then inr (VNum (of_Z (Z.of_nat (length elems))))
      else match array_index name with
           | Some i => inr (nth i elems VUndefined)
           | None => inr VUndefined
           end
  | VObj props => inr (default VUndefined (props !! name))
  end.

(** [v?.name]. *)
Definition optional_property (v : value) (name : string) : value :=
  match get_property v name with
  | inl _ => VUndefined
  | inr x => x
  end.

End JS.

(** ** The monitor of [server.js]

    The functions of the module run on one thread.  A plain function, a
    timer callback or a request handler runs as a whole; an [async]
    function runs until it reaches an [await], where it lets go of the
    thread, and goes on when the promise it waits for has settled.  In
    between, the event loop may run anything else that is ready: another
    cycle, a retry, a request.  Console output is left out. *)

Module Server.
Import JS.

(** *** State *)

Definition timer_id : Set := nat.
Bind Scope nat_scope with timer_id.

(** The module-level [let] variables. *)
Record Globals : Type := mkGlobals {
  longThreshold : number;
  shortThreshold : number;
  pollingIntervalMs : number;
  lastLongLiq : number;
  lastShortLiq : number;
  lastLongAlertValue : option number;   (* [null] is [None] *)
  lastShortAlertValue : option number;
  intervalId : option timer_id
}.

(** The callback a retry timer holds: [() => checkLiquidations(nextAttempt)]. *)
Inductive task : Type := CheckLiquidations (retryCount : nat).

(** What the program owns in the runtime: the active [setInterval] timers
    with their period (each runs [() => checkLiquidations()]), the pending
    [setTimeout] callbacks with their delay, oldest first, and the record
    of the [sendMessage] calls that have settled, with their outcome. *)
Record Runtime : Type := mkRuntime {
  next_timer : timer_id;
  intervals : gmap timer_id number;
  timeouts : list (task * number);
  sent : list (string * bool)
}.

Record World : Type := mkWorld { vars : Globals; rt : Runtime }.

(** A promise settles in one of two ways. *)
Inductive settlement : Type :=
| Resolved (v : value)
| Rejected (error : js_error).

(** The promises the program waits for: the one of [axios.get], which
    resolves to a response (held here by its [data]), and the one of
    [bot.telegram.sendMessage]. *)
Inductive request : Type :=
| HttpGet
| SendMessage (text : string).

Inductive http_response : Type :=
| Redirect (location : string).

(** *** A state and exception monad for the plain functions *)

Inductive completion (A : Type) : Type :=
| Normal (a : A)
| Thrown (e : js_error).
Arguments Normal {A} a.
Arguments Thrown {A} e.

Definition M (A : Type) : Type := World -> completion A * World.

Definition ret {A} (a : A) : M A := fun w => (Normal a, w).

Definition bind {A B} (c : M A) (k : A -> M B) : M B :=
  fun w =>
    match c w with
    | (Normal a, w') => k a w'
    | (Thrown e, w') => (Thrown e, w')
    end.

Definition throw {A} (e : js_error) : M A := fun w => (Thrown e, w).

Definition lift {A} (r : js_error + A) : M A :=
  match r with
  | inl e => throw e
  | inr a => ret a
  end.

Definition read {A} (var : Globals -> A) : M A := fun w => (Normal (var (vars w)), w).

Definition assign (f : Globals -> Globals) : M unit :=
  fun w => (Normal tt, mkWorld (f (vars w)) (rt w)).

Definition skip : M unit := ret tt.

Declare Scope js_scope.
Delimit Scope js_scope with js.
Notation "x <- c ;; k" := (bind c%js (fun x => k%js))
  (at level 100, c at next level, right associativity) : js_scope.
Notation "c ;; k" := (bind c%js (fun _ => k%js))
  (at level 100, right associativity) : js_scope.
Local Open Scope js_scope.

(** *** Asynchronous functions

    What a call of an [async] function has come to when it lets go of the
    thread: it has completed, or it waits for a promise, with what it will
    do when the promise has settled, in the world as it will be then.  In
    both cases [w] is the world it leaves. *)

Inductive async (A : Type) : Type :=
| Done (c : completion A) (w : World)
| Await (p : request) (w : World) (k : settlement -> World -> async A).
Arguments Done {A} c w.
Arguments Await {A} p w k.

Definition Async (A : Type) : Type := World -> async A.

(** A plain computation inside an [async] function. *)
Definition sync {A} (c : M A) : Async A :=
  fun w => let '(r, w') := c w in Done r w'.

Fixpoint and_then {A B} (a : async A) (k : A -> Async B) : async B :=
  match a with
  | Done (Normal x) w => k x w
  | Done (Thrown e) w => Done (Thrown e) w
  | Await p w resume => Await p w (fun s w' => and_then (resume s w') k)
  end.

Definition bind_async {A B} (c : Async A) (k : A -> Async B) : Async B :=
  fun w => and_then (c w) k.

(** [await promise]: the value the promise resolves to, or the error it
    rejects with, thrown. *)
Definition await (p : request) : Async value :=
  fun w =>
    Await p w
      (fun s w' =>
         match s with
         | Resolved v => Done (Normal v) w'
         | Rejected error => Done (Thrown error) w'
         end).

(** [try { body } catch (error) { handler }] around code that awaits. *)
Fixpoint or_catch {A} (a : async A) (handler : js_error -> Async A) : async A :=
  match a with
  | Done (Normal x) w => Done (Normal x) w
  | Done (Thrown e) w => handler e w
  | Await p w resume => Await p w (fun s w' => or_catch (resume s w') handler)
  end.

Definition try_catch {A} (body : Async A) (handler : js_error -> Async A) : Async A :=
  fun w => or_catch (body w) handler.

Declare Scope async_scope.
Delimit Scope async_scope with async.
Bind Scope async_scope with Async.
Arguments bind_async {A B} c%_async k%_async.
Notation "x <- c ;; k" := (bind_async c%async (fun x => k%async))
  (at level 100, c at next level, right associativity) : async_scope.
Notation "c ;; k" := (bind_async c%async (fun _ => k%async))
  (at level 100, right associativity) : async_scope.
Arguments sync {A} c%_js.
Arguments try_catch {A} body%_async handler%_async.

(** Assignments to the module-level variables. *)
Definition set_longThreshold (x : number) (g : Globals) : Globals :=
  mkGlobals x (shortThreshold g) (pollingIntervalMs g) (lastLongLiq g)
    (lastShortLiq g) (lastLongAlertValue g) (lastShortAlertValue g) (intervalId g).
Definition set_shortThreshold (x : number) (g : Globals) : Globals :=
  mkGlobals (longThreshold g) x (pollingIntervalMs g) (lastLongLiq g)
    (lastShortLiq g) (lastLongAlertValue g) (lastShortAlertValue g) (intervalId g).
Definition set_pollingIntervalMs (x : number) (g : Globals) : Globals :=
  mkGlobals (longThreshold g) (shortThreshold g) x (lastLongLiq g)
    (lastShortLiq g) (lastLongAlertValue g) (lastShortAlertValue g) (intervalId g).
Definition set_lastLongLiq (x : number) (g : Globals) : Globals :=
  mkGlobals (longThreshold g) (shortThreshold g) (pollingIntervalMs g) x
    (lastShortLiq g) (lastLongAlertValue g) (lastShortAlertValue g) (intervalId g).
Definition set_lastShortLiq (x : number) (g : Globals) : Globals :=
  mkGlobals (longThreshold g) (shortThreshold g) (pollingIntervalMs g)
    (lastLongLiq g) x (lastLongAlertValue g) (lastShortAlertValue g) (intervalId g).
Definition set_lastLongAlertValue (x : option number) (g : Globals) : Globals :=
  mkGlobals (longThreshold g) (shortThreshold g) (pollingIntervalMs g)
    (lastLongLiq g) (lastShortLiq g) x (lastShortAlertValue g) (intervalId g).
Definition set_lastShortAlertValue (x : option number) (g : Globals) : Globals :=
  mkGlobals (longThreshold g) (shortThreshold g) (pollingIntervalMs g)
    (lastLongLiq g) (lastShortLiq g) (lastLongAlertValue g) x (intervalId g).
Definition set_intervalId (x : option timer_id) (g : Globals) : Globals :=
  mkGlobals (longThreshold g) (shortThreshold g) (pollingIntervalMs g)
    (lastLongLiq g) (lastShortLiq g) (lastLongAlertValue g)
    (lastShortAlertValue g) x.

(** *** Timers and the Telegram client *)

(** [setInterval(() => checkLiquidations(), period)]: a fresh timer. *)
Definition setInterval (period : number) : M timer_id :=
  fun w =>
    let r := rt w in
    let id := next_timer r in
    (Normal id,
     mkWorld (vars w)
       (mkRuntime (S id) (<[id := period]> (intervals r)) (timeouts r) (sent r))).

Definition clearInterval (id : timer_id) : M unit :=
  fun w =>
    let r := rt w in
    (Normal tt,
     mkWorld (vars w)
       (mkRuntime (next_timer r) (delete id (intervals r)) (timeouts r) (sent r))).

(** [setTimeout(callback, delay)]. *)
Definition setTimeout (callback : task) (delay : number) : M unit :=
  fun w =>
    let r := rt w in
    (Normal tt,
     mkWorld (vars w)
       (mkRuntime (S (next_timer r)) (intervals r)
          (timeouts r ++ [(callback, delay)]) (sent r))).

(** [sendTelegramAlert]: [true] when [sendMessage] resolves, [false] when
    it rejects; the rejection is caught here. *)
Definition sendTelegramAlert (message : string) : Async bool :=
  try_catch
    (_ <- await (SendMessage message) ;;
     sync (ret true))
    (fun error => sync (ret false)).

(** *** Formatting *)

Definition formatWithCommasAndDot (value : number) : string :=
  toLocaleString_en_US 2 value.

Definition truncToDecimals (num : number) (decimals : nat) : number :=
  let factor := Math_pow10 decimals in
  PrimFloat.div (Math_floor (PrimFloat.mul num factor)) factor.

Definition formatShortValue (value : number) : string :=
  if ge value 1000000%float then
    let millions := PrimFloat.div value 1000000%float in
    let truncated := truncToDecimals millions 2 in
    Number_toString truncated +:+ "M"
  else if ge value 1000%float then
    let thousands := PrimFloat.div value 1000%float in
    let truncated := Math_floor thousands in
    Number_toString truncated +:+ "K"
  else
    toLocaleString_en_US 2 value.

Definition LF : string := String "010" "".

Definition longMessage (fullFormat shortFormat : string) : string :=
  "CG LONG Liquidations" +:+ LF
  +:+ "BTCUSDT.P Long Liquidations: $" +:+ fullFormat +:+ LF
  +:+ "($" +:+ shortFormat +:+ ")" +:+ LF +:+ LF
  +:+ "© 2025 VORFX | All rights reserved.".

Definition shortMessage (fullFormat shortFormat : string) : string :=
  "CG SHORT Liquidations" +:+ LF
  +:+ "BTCUSDT.P Short Liquidations: $" +:+ fullFormat +:+ LF
  +:+ "($" +:+ shortFormat +:+ ")" +:+ LF +:+ LF
  +:+ "© 2025 VORFX | All rights reserved.".

(** *** The monitor cycle *)

(** [x === null || y !== x] for a variable holding [null] or a Number. *)
Definition null_or_differs (last : option number) (y : number) : bool :=
  match last with
  | None => true
  | Some x => strict_neq y x
  end.

Definition code_is (error : js_error) (name : string) : bool :=
  match code error with
  | Some c => String.eqb c name
  | None => false
  end.

Definition checkLiquidations (retryCount : nat) : Async unit :=
  try_catch
    (response_data <- await HttpGet ;;
     let data := or_else (optional_property response_data "data") (VArr []) in
     data_length <- sync (lift (get_property data "length")) ;;
     len <- sync (lift (ToNumber data_length)) ;;
     if gt len 0%float then
       lastCandle <- sync (lift (get_property data "0")) ;;
       long <- sync (lift (get_property lastCandle "longLiquidationUsd")) ;;
       long_text <- sync (lift (ToString (or_else long (VNum 0%float)))) ;;
       sync (assign (set_lastLongLiq (parseFloat long_text))) ;;
       short <- sync (lift (get_property lastCandle "shortLiquidationUsd")) ;;
       short_text <- sync (lift (ToString (or_else short (VNum 0%float)))) ;;
       sync (assign (set_lastShortLiq (parseFloat short_text))) ;;
       (* --- Check LONG --- *)
       g <- sync (read id) ;;
       (if gt (lastLongLiq g) (longThreshold g) then
          if null_or_differs (lastLongAlertValue g) (lastLongLiq g) then
            let fullFormat := formatWithCommasAndDot (lastLongLiq g) in
            let shortFormat := formatShortValue (lastLongLiq g) in
            success <- sendTelegramAlert (longMessage fullFormat shortFormat) ;;
            if success : bool then
              sync (v <- read lastLongLiq ;;
                    assign (set_lastLongAlertValue (Some v)))
            else sync skip
          else sync skip
        else sync skip) ;;
       (* --- Check SHORT --- *)
       g <- sync (read id) ;;
       (if gt (lastShortLiq g) (shortThreshold g) then
          if null_or_differs (lastShortAlertValue g) (lastShortLiq g) then
            let fullFormat := formatWithCommasAndDot (lastShortLiq g) in
            let shortFormat := formatShortValue (lastShortLiq g) in
            success <- sendTelegramAlert (shortMessage fullFormat shortFormat) ;;
            if success : bool then
              sync (v <- read lastShortLiq ;;
                    assign (set_lastShortAlertValue (Some v)))
            else sync skip
          else sync skip
        else sync skip)
     else sync skip)
    (fun error =>
       if (code_is error "ECONNRESET" || code_is error "ETIMEDOUT")
          && (retryCount <? 3)%nat
       then
         let nextAttempt := (retryCount + 1)%nat in
         sync (setTimeout (CheckLiquidations nextAttempt) 5000%float)
       else sync skip).

(** *** The scheduler *)

(** [if (intervalId)] holds for every timer handle: [setInterval] returns
    a [Timeout] object, and objects are truthy. *)
Definition scheduleCheckLiquidations : M unit :=
  handle <- read intervalId ;;
  (if handle is Some i then clearInterval i else skip) ;;
  period <- read pollingIntervalMs ;;
  fresh <- setInterval period ;;
  assign (set_intervalId (Some fresh)).

(** *** The control endpoint *)

(** [parseFloat(req.body.name)].  [req.body] is the object the
    [urlencoded] parser builds from the form: a field is a string, or,
    with [extended: true], an array or an object; a field that is not
    there reads as [undefined]. *)
Definition body_field (body : gmap string value) (name : string) : js_error + number :=
  match ToString (default VUndefined (body !! name)) with
  | inl error => inl error
  | inr s => inr (parseFloat s)
  end.

Definition post_set_params (body : gmap string value) : M http_response :=
  lt <- lift (body_field body "longThreshold") ;;
  st <- lift (body_field body "shortThreshold") ;;
  pi <- lift (body_field body "pollInterval") ;;
  (if negb (isNaN lt) then assign (set_longThreshold lt) else skip) ;;
  (if negb (isNaN st) then assign (set_shortThreshold st) else skip) ;;
  (if negb (isNaN pi) && gt pi 0%float then
     assign (set_pollingIntervalMs (PrimFloat.mul pi 1000%float)) ;;
     scheduleCheckLiquidations
   else skip) ;;
  ret (Redirect "/").

(** *** The process *)

(** The variables as the module initialises them, and the runtime before
    any timer exists. *)
Definition initial_globals : Globals :=
  {| longThreshold := 5000000%float;
     shortThreshold := 10000000%float;
     pollingIntervalMs := 60000%float;
     lastLongLiq := 0%float;
     lastShortLiq := 0%float;
     lastLongAlertValue := None;
     lastShortAlertValue := None;
     intervalId := None |}.

Definition initial_world : World :=
  mkWorld initial_globals (mkRuntime 0%nat ∅ [] []).

Definition exec {A} (c : M A) (w : World) : World := snd (c w).

(** The top-level call [scheduleCheckLiquidations()] made while the
    module loads. *)
Definition startup : World := exec scheduleCheckLiquidations initial_world.

(** The process between two turns of the event loop: the world, and the
    calls of [checkLiquidations] that wait for a promise, oldest first,
    each with what it will do when the promise has settled. *)
Record suspended : Type := mkSuspended {
  waits_for : request;
  resume : settlement -> World -> async unit
}.

Record Process : Type := mkProcess { world : World; pending : list suspended }.

(** The process when the module has loaded. *)
Definition boot : Process := mkProcess startup [].

(** Where a call leaves the process when it lets go of the thread. *)
Definition park (a : async unit) (others : list suspended) : Process :=
  match a with
  | Done _ w => mkProcess w others
  | Await p w k => mkProcess w (others ++ [mkSuspended p k])
  end.

(** The runtime's side of a settlement: the outcome of a [sendMessage]
    call goes on record. *)
Definition resolved (s : settlement) : bool :=
  match s with
  | Resolved _ => true
  | Rejected _ => false
  end.

Definition settle (p : request) (s : settlement) (w : World) : World :=
  match p with
  | HttpGet => w
  | SendMessage text =>
      let r := rt w in
      mkWorld (vars w)
        (mkRuntime (next_timer r) (intervals r) (timeouts r)
           (sent r ++ [(text, resolved s)]))
  end.

(** What the event loop can run next: a tick of a periodic timer, the
    [k]-th pending timeout, a [POST /set-params] request, or the
    continuation of the [j]-th waiting call, whose promise has settled. *)
Inductive event : Type :=
| IntervalTick (id : timer_id)
| TimeoutFires (k : nat)
| PostSetParams (body : gmap string value)
| Settles (j : nat) (s : settlement).

Definition remove_nth {A} (k : nat) (l : list A) : list A :=
  firstn k l ++ skipn (S k) l.

Definition fire_timeout (k : nat) (w : World) : option (task * World) :=
  match nth_error (timeouts (rt w)) k with
  | Some (t, _) =>
      let r := rt w in
      Some (t, mkWorld (vars w)
                 (mkRuntime (next_timer r) (intervals r)
                    (remove_nth k (timeouts r)) (sent r)))
  | None => None
  end.

Definition step (ev : event) (P : Process) : Process :=
  match ev with
  | IntervalTick id =>
      match intervals (rt (world P)) !! id with
      | Some _ => park (checkLiquidations 0%nat (world P)) (pending P)
      | None => P
      end
  | TimeoutFires k =>
      match fire_timeout k (world P) with
      | Some (CheckLiquidations n, w') => park (checkLiquidations n w') (pending P)
      | None => P
      end
  | PostSetParams body =>
      mkProcess (exec (post_set_params body) (world P)) (pending P)
  | Settles j s =>
      match nth_error (pending P) j with
      | Some call =>
          park (resume call s (settle (waits_for call) s (world P)))
            (remove_nth j (pending P))
      | None => P
      end
  end.

Definition run (evs : list event) (P : Process) : Process :=
  fold_left (fun P ev => step ev P) evs P.

Inductive reachable : Process -> Prop :=
| reachable_boot : reachable boot
| reachable_step ev P : reachable P -> reachable (step ev P).

End Server.

(** ** Reading a cycle

    The vocabulary the statements below are written in: a call that
    nothing interrupts, what a fetch amounts to, which messages a step
    has sent, and the alert decision as the specification words it. *)

Module Cycle.
Import JS Server.

(** What the network answers to one call: the outcome of [axios.get],
    and for each call of [bot.telegram.sendMessage], numbered over the
    whole run, whether the promise resolves. *)
Record Network : Type := mkNetwork {
  http_get : settlement;
  telegram_ok : nat -> string -> bool
}.

(** The error of a [sendMessage] that fails; [sendTelegramAlert] logs
    its message and nothing else. *)
Definition TelegramError : js_error := {| code := None |}.

Definition answer (io : Network) (p : request) (w : World) : settlement :=
  match p with
  | HttpGet => http_get io
  | SendMessage text =>
      if telegram_ok io (length (sent (rt w))) text then Resolved VUndefined
      else Rejected TelegramError
  end.

(** A call that nothing interrupts: each promise it waits for settles, as
    [io] says, before the event loop runs anything else. *)
Fixpoint uninterrupted {A} (io : Network) (a : async A) : completion A * World :=
  match a with
  | Done c w => (c, w)
  | Await p w k =>
      let s := answer io p w in
      uninterrupted io (k s (settle p s w))
  end.

(** One cycle of the monitor from its call to its end, with no other
    cycle or request in between. *)
Definition cycle (io : Network) (retryCount : nat) : M unit :=
  fun w => uninterrupted io (checkLiquidations retryCount w).

(** The first half of the [try] block read as a function of the network
    answer: a sample, a long value stored before the short field threw,
    nothing to sample, or an error before anything was stored. *)
Inductive fetched : Type :=
| Sample (long short : number)
| LongOnly (long : number) (error : js_error)
| NoSample
| Failed (error : js_error).

Definition candle_field (v : value) : js_error + number :=
  match ToString (or_else v (VNum 0%float)) with
  | inl error => inl error
  | inr s => inr (parseFloat s)
  end.

Definition read_candle (lastCandle : value) : fetched :=
  match get_property lastCandle "longLiquidationUsd" with
  | inl error => Failed error
  | inr long =>
      match candle_field long with
      | inl error => Failed error
      | inr l =>
          match get_property lastCandle "shortLiquidationUsd" with
          | inl error => LongOnly l error
          | inr short =>
              match candle_field short with
              | inl error => LongOnly l error
              | inr s => Sample l s
              end
          end
      end
  end.

Definition fetch_outcome (io : Network) : fetched :=
  match http_get io with
  | Rejected error => Failed error
  | Resolved body =>
      let data := or_else (optional_property body "data") (VArr []) in
      match get_property data "length" with
      | inl error => Failed error
      | inr data_length =>
          match ToNumber data_length with
          | inl error => Failed error
          | inr len =>
              if gt len 0%float then
                match get_property data "0" with
                | inl error => Failed error
                | inr lastCandle => read_candle lastCandle
                end
              else NoSample
          end
      end
  end.

(** The errors the [catch] block retries. *)
Definition transient (o : fetched) : bool :=
  match o with
  | Failed error | LongOnly _ error =>
      code_is error "ECONNRESET" || code_is error "ETIMEDOUT"
  | _ => false
  end.

(** The [sendMessage] calls settled between two states of one run. *)
Definition new_sent (w w' : World) : list (string * bool) :=
  skipn (length (sent (rt w))) (sent (rt w')).

Inductive side : Type := Long | Short.

Definition heading (s : side) : string :=
  match s with
  | Long => "CG LONG Liquidations"
  | Short => "CG SHORT Liquidations"
  end.

Definition about (s : side) (attempt : string * bool) : bool :=
  String.prefix (heading s) (fst attempt).

(** The dispatch attempts of one side between two states. *)
Definition attempts (s : side) (w w' : World) : list (string * bool) :=
  filter (fun a => about s a = true) (new_sent w w').

Definition threshold (s : side) (g : Globals) : number :=
  match s with
  | Long => longThreshold g
  | Short => shortThreshold g
  end.

Definition last_alerted (s : side) (g : Globals) : option number :=
  match s with
  | Long => lastLongAlertValue g
  | Short => lastShortAlertValue g
  end.

Definition last_sample (s : side) (g : Globals) : number :=
  match s with
  | Long => lastLongLiq g
  | Short => lastShortLiq g
  end.

Definition alert_text (s : side) (v : number) : string :=
  match s with
  | Long => longMessage (formatWithCommasAndDot v) (formatShortValue v)
  | Short => shortMessage (formatWithCommasAndDot v) (formatShortValue v)
  end.

(** The edge detector in the words of the specification: alert iff the
    new value exceeds the threshold and the last alerted value is absent
    or another number. *)
Definition shouldAlert_spec (newValue thresh : number) (lastAlerted : option number) : Prop :=
  gt newValue thresh = true
  /\ (lastAlerted = None
      \/ exists x, lastAlerted = Some x /\ strict_neq newValue x = true).

Definition shouldAlert (newValue thresh : number) (lastAlerted : option number) : bool :=
  gt newValue thresh && null_or_differs lastAlerted newValue.

(** [s.includes(part)]. *)
Definition includes (s part : string) : bool :=
  if String.index 0 part s is Some _ then true else false.

(** The two [if] blocks of the cycle as state transformers. *)
Definition store_sample (l s : number) (w : World) : World :=
  mkWorld (set_lastShortLiq s (set_lastLongLiq l (vars w))) (rt w).

Definition store_long (l : number) (w : World) : World :=
  mkWorld (set_lastLongLiq l (vars w)) (rt w).

Definition remember (s : side) (v : number) (g : Globals) : Globals :=
  match s with
  | Long => set_lastLongAlertValue (Some v) g
  | Short => set_lastShortAlertValue (Some v) g
  end.

Definition check_side (s : side) (io : Network) (w : World) : World :=
  let g := vars w in
  let r := rt w in
  let v := last_sample s g in
  if shouldAlert v (threshold s g) (last_alerted s g) then
    let ok := telegram_ok io (length (sent r)) (alert_text s v) in
    mkWorld (if ok then remember s v g else g)
      (mkRuntime (next_timer r) (intervals r) (timeouts r)
         (sent r ++ [(alert_text s v, ok)]))
  else w.

(** The dispatch attempt that block makes, if any. *)
Definition side_attempt (s : side) (io : Network) (w : World) : list (string * bool) :=
  let g := vars w in
  let v := last_sample s g in
  if shouldAlert v (threshold s g) (last_alerted s g) then
    [(alert_text s v, telegram_ok io (length (sent (rt w))) (alert_text s v))]
  else [].

(** The value a sample carries for a side. *)
Definition pick (sd : side) (l s : number) : number :=
  match sd with
  | Long => l
  | Short => s
  end.

(** The state each block decides on, in terms of the state before the
    cycle. *)
Definition block_input (sd : side) (io : Network) (l s : number) (w : World) : World :=
  match sd with
  | Long => store_sample l s w
  | Short => check_side Long io (store_sample l s w)
  end.

Definition schedule_retry (n : nat) (w : World) : World :=
  exec (setTimeout (CheckLiquidations (n + 1)) 5000%float) w.

(** The periodic timers left once the one [intervalId] names is cleared. *)
Definition cleared (w : World) : gmap timer_id number :=
  match intervalId (vars w) with
  | Some i => delete i (intervals (rt w))
  | None => intervals (rt w)
  end.

(** The test [!isNaN(pi) && pi > 0] of the control endpoint. *)
Definition accepted_interval (pi : number) : bool := negb (isNaN pi) && gt pi 0%float.

(** A pending retry as the cycle queues them: at a retry count from 1 to
    3, 5 seconds ahead. *)
Definition bounded_retry (t : task * number) : Prop :=
  match t with
  | (CheckLiquidations n, delay) => (1 <= n <= 3)%nat /\ delay = 5000%float
  end.

(** The scheduler's single timer: [intervalId] names it, it is the only
    active one, and it runs at the current period. *)
Definition one_timer (w : World) : Prop :=
  exists id : timer_id,
    intervalId (vars w) = Some id
    /\ intervals (rt w) = {[ id := pollingIntervalMs (vars w) ]}
    /\ (id < next_timer (rt w))%nat.

(** A world in which [intervalId] names every active periodic timer. *)
Definition tracked (w : World) : Prop :=
  (intervalId (vars w) = None /\ intervals (rt w) = ∅)
  \/ exists (id : timer_id) (p : number),
       intervalId (vars w) = Some id /\ intervals (rt w) = {[ id := p ]}.

(** What the monitor knows: thresholds, period, samples and alert memory. *)
Definition monitor_state (w : World) :=
  let g := vars w in
  (longThreshold g, shortThreshold g, pollingIntervalMs g,
   lastLongLiq g, lastShortLiq g, lastLongAlertValue g, lastShortAlertValue g).

(** The three fields of a request as the endpoint reads them, before it
    assigns anything. *)
Definition read_params (body : gmap string value)
    : js_error + (number * number * number) :=
  match body_field body "longThreshold" with
  | inl error => inl error
  | inr lt =>
      match body_field body "shortThreshold" with
      | inl error => inl error
      | inr st =>
          match body_field body "pollInterval" with
          | inl error => inl error
          | inr pi => inr (lt, st, pi)
          end
      end
  end.

(** The variables after the two threshold assignments of the endpoint. *)
Definition with_thresholds (lt st : number) (g : Globals) : Globals :=
  let g1 := if isNaN lt then g else set_longThreshold lt g in
  if isNaN st then g1 else set_shortThreshold st g1.

(** The compact form the specification describes for a whole number of
    dollars of a million or more: the quotient by a million cut after two
    decimals, here in hundredths of a million. *)
Definition millions_truncated_spec (v : Z) : Z := v * 100 / 1000000.

End Cycle.

(** ** Sample inputs *)

Module Scenario.
Import JS Server Cycle.

(** A data point and a response body as the provider sends them. *)
Definition candle (long short : string) : value :=
  VObj (<["longLiquidationUsd" := VStr long]>
          (<["shortLiquidationUsd" := VStr short]>
             (<["t" := VNum 1735689600000%float]> ∅))).

Definition response (data : value) : value :=
  VObj (<["code" := VStr "0"]> (<["msg" := VStr "success"]> (<["data" := data]> ∅))).

(** A network that answers [body] and acknowledges every message, and
    one that answers [body] and rejects every message. *)
Definition delivering (body : value) : Network :=
  mkNetwork (Resolved body) (fun _ _ => true).

Definition undelivering (body : value) : Network :=
  mkNetwork (Resolved body) (fun _ _ => false).

(** A network on which the request fails with the given [error.code]. *)
Definition failing (c : option string) : Network :=
  mkNetwork (Rejected {| code := c |}) (fun _ _ => true).

Definition fetch_6000000 : Network := delivering (response (VArr [candle "6000000" "0"])).
Definition fetch_7250000 : Network := delivering (response (VArr [candle "7250000" "0"])).
Definition fetch_6000000_undelivered : Network :=
  undelivering (response (VArr [candle "6000000" "0"])).

(** The states of the three-cycle scenario. *)
Definition after_first : World := exec (cycle fetch_6000000 0) startup.
Definition after_second : World := exec (cycle fetch_6000000 0) after_first.
Definition after_third : World := exec (cycle fetch_7250000 0) after_second.

(** The events of a run of failures: a tick of the periodic timer whose
    request fails as [io0] says, then, for each of [ios], the oldest
    pending retry fires and its request fails in turn.  [j] is the place
    the call takes among the waiting ones. *)
Definition failure_events (id : timer_id) (j : nat) (io0 : Network) (ios : list Network)
    : list event :=
  [IntervalTick id; Settles j (http_get io0)]
    ++ flat_map (fun io => [TimeoutFires 0; Settles j (http_get io)]) ios.

(** Four transient failures in a row: a tick of the periodic timer and
    its three retries. *)
Definition four_failures : list Network :=
  [failing (Some "ECONNRESET"); failing (Some "ETIMEDOUT");
   failing (Some "ETIMEDOUT"); failing (Some "ECONNRESET")].

Definition four_failure_events : list event :=
  failure_events 0 0 (failing (Some "ECONNRESET")) (tl four_failures).

(** Two ticks of the timer whose cycles overlap.  The first cycle fetches
    6,000,000 and sends its message; while the message is on its way the
    second tick fires and its fetch resolves to [second]; then the
    messages are acknowledged, oldest first. *)
Definition overlapping_ticks (second : value) (acknowledgements : nat) : list event :=
  [IntervalTick 0; Settles 0 (Resolved (response (VArr [candle "6000000" "0"])));
   IntervalTick 0; Settles 1 (Resolved second)]
    ++ repeat (Settles 0 (Resolved VUndefined)) acknowledgements.

(** A data point whose long field reads 6,000,000 and whose short field
    cannot be converted to a string. *)
Definition fetch_short_unconvertible : Network :=
  delivering
    (response
       (VArr [VObj (<["longLiquidationUsd" := VStr "6000000"]>
                      (<["shortLiquidationUsd"
                         := VObj (<["toString" := VNum 1%float]> ∅)]> ∅))])).

(** A form body, field by field. *)
Definition form (fields : list (string * string)) : gmap string value :=
  VStr <$> list_to_map fields.

End Scenario.

(** ** Histories and configurations

    Vocabulary for the properties of whole runs. *)

Module History.
Import JS Server Cycle Scenario.

(** The texts of the messages of one side that were acknowledged, oldest
    first. *)
Definition acknowledged (sd : side) (log : list (string * bool)) : list string :=
  fst <$> filter (fun a => about sd a = true /\ snd a = true) log.

(** Thresholds that are Numbers and a period above zero. *)
Definition valid_configuration (g : Globals) : Prop :=
  isNaN (longThreshold g) = false
  /\ isNaN (shortThreshold g) = false
  /\ gt (pollingIntervalMs g) 0%float = true.

(** The field of a data point that carries the value of a side. *)
Definition field_name (sd : side) : string :=
  match sd with
  | Long => "longLiquidationUsd"
  | Short => "shortLiquidationUsd"
  end.

(** A data point with an unreadable long field and no short field. *)
Definition fetch_unreadable : Network :=
  delivering (response (VArr [VObj (<["longLiquidationUsd" := VStr "n/a"]> ∅)])).

(** A data point with both sides above their thresholds. *)
Definition fetch_both_sides : Network :=
  delivering (response (VArr [candle "6000000" "12000000"])).

(** The data point of 6,000,000 followed by others. *)
Definition fetch_6000000_then_more : Network :=
  delivering (response (VArr [candle "6000000" "0"; candle "9000000" "1"; VNull])).

(** What one stretch of a call of [checkLiquidations] may do, from the
    settlement [s] of the promise [p] it waited for, in the world [w] it
    is resumed in, to the world [w'] it leaves.  After the fetch: the
    samples may change and retries may be queued, each at a count from 1
    to 3; thresholds, period, alert memory, periodic timers and the
    record of messages stay.  After a message: the side the message is
    about remembers its sample as it stands, if the message was
    acknowledged; nothing else changes. *)
Definition stretch (p : request) (s : settlement) (w w' : World) : Prop :=
  match p with
  | HttpGet =>
      longThreshold (vars w') = longThreshold (vars w)
      /\ shortThreshold (vars w') = shortThreshold (vars w)
      /\ pollingIntervalMs (vars w') = pollingIntervalMs (vars w)
      /\ intervalId (vars w') = intervalId (vars w)
      /\ lastLongAlertValue (vars w') = lastLongAlertValue (vars w)
      /\ lastShortAlertValue (vars w') = lastShortAlertValue (vars w)
      /\ intervals (rt w') = intervals (rt w)
      /\ sent (rt w') = sent (rt w)
      /\ (next_timer (rt w) <= next_timer (rt w'))%nat
      /\ exists queued, timeouts (rt w') = timeouts (rt w) ++ queued
                        /\ Forall bounded_retry queued
  | SendMessage text =>
      exists (sd : side) (v : number),
        text = alert_text sd v
        /\ w' = mkWorld (if resolved s
                         then remember sd (last_sample sd (vars w)) (vars w)
                         else vars w)
                  (rt w)
  end.

(** What a waiting call will do when its promise has settled. *)
Definition continuation {A} (a : async A) : settlement -> World -> async A :=
  match a with
  | Await _ _ k => k
  | Done c _ => fun _ w => Done c w
  end.

(** A waiting call all of whose stretches to come are as [S] says, and
    which lets no error out when it completes. *)
Inductive follows (S : request -> settlement -> World -> World -> Prop)
    : request -> (settlement -> World -> async unit) -> Prop :=
| follows_intro (p : request) (k : settlement -> World -> async unit) :
    (forall s w c w', k s w = Done c w' -> c = Normal tt) ->
    (forall s w c w', k s w = Done c w' -> S p s w w') ->
    (forall s w p' w' k', k s w = Await p' w' k' -> S p s w w') ->
    (forall s w p' w' k', k s w = Await p' w' k' -> follows S p' k') ->
    follows S p k.

(** The promises a call waits for along one of its runs, in order, and
    the way it completes. *)
Inductive waits {A : Type} : async A -> list request -> completion A -> Prop :=
| waits_done (c : completion A) (w : World) : waits (Done c w) [] c
| waits_await (p : request) (w : World) (k : settlement -> World -> async A)
    (s : settlement) (w' : World) (ps : list request) (c : completion A) :
    waits (k s w') ps c -> waits (Await p w k) (p :: ps) c.

(** The promises a call that nothing interrupts waits for. *)
Fixpoint awaited {A} (io : Network) (a : async A) : list request :=
  match a with
  | Done _ _ => []
  | Await p w k =>
      let s := answer io p w in
      p :: awaited io (k s (settle p s w))
  end.

(** The settlements of a call that nothing interrupts, as events. *)
Fixpoint settlements {A} (io : Network) (j : nat) (a : async A) : list event :=
  match a with
  | Done _ _ => []
  | Await p w k =>
      let s := answer io p w in
      Settles j s :: settlements io j (k s (settle p s w))
  end.

End History.

Import JS Server Cycle Scenario History.
Local Open Scope js_scope.

(** ** Tactics *)

Ltac run_body :=
  cbn [bind ret read assign skip lift throw exec
       vars rt sent next_timer intervals timeouts fst snd andb id
       set_lastLongLiq set_lastShortLiq set_lastLongAlertValue
       set_lastShortAlertValue set_longThreshold set_shortThreshold
       set_pollingIntervalMs set_intervalId
       lastLongLiq lastShortLiq longThreshold shortThreshold pollingIntervalMs
       lastLongAlertValue lastShortAlertValue intervalId
       last_sample threshold last_alerted alert_text remember].

(** Case analysis on every test of the body that can be decided. *)
Ltac split_tests :=
  repeat (run_body;
    match goal with
    | |- context [if ?b then _ else _] =>
        lazymatch b with
        | context [if _ then _ else _] => fail
        | _ => destruct b eqn:?
        end
    end);
  run_body.

(** The same for a call that nothing interrupts. *)
Ltac run_async :=
  cbn [sync lift ret throw assign read skip bind and_then or_catch uninterrupted
       answer settle await try_catch bind_async sendTelegramAlert setTimeout exec
       vars rt sent next_timer intervals timeouts fst snd andb id
       set_lastLongLiq set_lastShortLiq set_lastLongAlertValue
       set_lastShortAlertValue set_longThreshold set_shortThreshold
       set_pollingIntervalMs set_intervalId
       lastLongLiq lastShortLiq longThreshold shortThreshold pollingIntervalMs
       lastLongAlertValue lastShortAlertValue intervalId
       last_sample threshold last_alerted alert_text remember resolved].

Ltac split_async :=
  repeat (run_async;
    match goal with
    | |- context [if ?b then _ else _] =>
        lazymatch b with
        | context [if _ then _ else _] => fail
        | _ => destruct b eqn:?
        end
    end);
  run_async.

(** The same in a hypothesis, for a call that anything may interrupt. *)
Ltac run_in H :=
  unfold bind_async, try_catch, sendTelegramAlert, await, sync, lift in H;
  cbn [ret throw assign read skip bind and_then or_catch setTimeout
       vars rt sent next_timer intervals timeouts fst snd andb id
       set_lastLongLiq set_lastShortLiq set_lastLongAlertValue
       set_lastShortAlertValue
       lastLongLiq lastShortLiq longThreshold shortThreshold pollingIntervalMs
       lastLongAlertValue lastShortAlertValue intervalId] in H.

Ltac split_in H :=
  repeat (run_in H;
    match type of H with
    | context [match ?x with _ => _ end] =>
        lazymatch x with
        | context [match _ with _ => _ end] => fail
        | _ => destruct x eqn:?
        end
    end);
  run_in H.

(** A retry that was queued behind the test [retryCount < 3]. *)
Ltac retry_is_bounded :=
  match goal with
  | H : _ && (_ <? 3)%nat = true |- _ =>
      apply andb_true_iff in H as [_ H]; apply Nat.ltb_lt in H;
      constructor; [|constructor]; split; [lia|reflexivity]
  end.

(** The stretch after the fetch, and the stretch after a message. *)
Ltac stretch_after_fetch :=
  unfold stretch;
  cbn [vars rt sent next_timer intervals timeouts
       set_lastLongLiq set_lastShortLiq
       lastLongLiq lastShortLiq longThreshold shortThreshold pollingIntervalMs
       lastLongAlertValue lastShortAlertValue intervalId];
  repeat (split; [reflexivity || lia|]);
  first [ exists []; split; [now rewrite app_nil_r | constructor]
        | eexists; split; [reflexivity | retry_is_bounded] ].

Ltac stretch_after_message sd :=
  unfold stretch; exists sd; eexists; split; reflexivity.

Ltac follow_message sd :=
  apply follows_intro;
  [ intros ? [? ?] ? ? H; split_in H;
    try discriminate H; injection H as <- <-; reflexivity
  | intros ? [? ?] ? ? H; split_in H;
    try discriminate H; injection H as <- <-; stretch_after_message sd
  | intros ? [? ?] ? ? ? H; split_in H;
    try discriminate H; injection H as <- <- <-; stretch_after_message sd
  | intros ? [? ?] ? ? ? H; split_in H;
    try discriminate H; injection H as <- <- <- ].

Ltac next_wait H :=
  split_in H;
  match type of H with
  | waits (Done _ _) _ _ => inversion H; subst; clear H
  | waits (Await _ _ _) _ _ =>
      let H' := fresh "H" in
      inversion H as [|? ? ? ? ? ? ? H']; subst; clear H
  end.

Ltac finish_waits :=
  split; [reflexivity|]; cbn [length]; (split; [lia|]); (split; [lia|]);
  split; repeat (constructor; [eexists; reflexivity|]); apply List.Forall_nil.

(** ** Numbers *)

(** A value that compares above another is not [NaN]. *)
Lemma gt_self_eqb (v t : number) : gt v t = true -> PrimFloat.eqb v v = true.
Proof.
  unfold gt. rewrite FloatAxioms.ltb_spec, FloatAxioms.eqb_spec. unfold SFltb, SFeqb.
  destruct (Prim2SF v) as [s|s| |s m e], (Prim2SF t) as [s'|s'| |s' m' e'];
    simpl; try discriminate; try reflexivity.
  all: intros _; destruct s; rewrite ?Z.compare_refl; simpl;
    rewrite ?Pos.compare_refl, ?Pos.compare_cont_refl; reflexivity.
Qed.

Lemma gt_not_differs (v t : number) : gt v t = true -> strict_neq v v = false.
Proof. intros H. unfold strict_neq. now rewrite (gt_self_eqb v t H). Qed.

Lemma shouldAlert_iff (v t : number) (last : option number) :
  shouldAlert v t last = true <-> shouldAlert_spec v t last.
Proof.
  unfold shouldAlert, shouldAlert_spec, null_or_differs.
  rewrite andb_true_iff. destruct last as [x|]; split.
  - intros [H1 H2]. split; [exact H1|]. right. now exists x.
  - intros [H1 [H2|[y [Hy H2]]]]; [discriminate|]. injection Hy as ->. now split.
  - intros [H1 _]. split; [exact H1|]. now left.
  - intros [H1 _]. now split.
Qed.

(** ** The cycle, case by case

    What a cycle that nothing interrupts comes to, by the outcome of its
    fetch. *)

Lemma uninterrupted_sample (io : Network) (n : nat) (w : World) (l s : number) :
  fetch_outcome io = Sample l s ->
  cycle io n w
  = (Normal tt, check_side Short io (check_side Long io (store_sample l s w))).
Proof.
  unfold fetch_outcome, read_candle, candle_field, cycle, checkLiquidations.
  run_async.
  destruct (http_get io) as [body|error]; [|discriminate]. run_async.
  destruct (get_property _ "length") as [e|len]; [discriminate|]. run_async.
  destruct (ToNumber len) as [e|x]; [discriminate|]. run_async.
  destruct (gt x 0%float); [|discriminate]. run_async.
  destruct (get_property _ "0") as [e|c]; [discriminate|]. run_async.
  destruct (get_property c "longLiquidationUsd") as [e|long]; [discriminate|].
  run_async.
  destruct (ToString (or_else long _)) as [e|lt]; [discriminate|]. run_async.
  destruct (get_property c "shortLiquidationUsd") as [e|short]; [discriminate|].
  run_async.
  destruct (ToString (or_else short _)) as [e|st]; [discriminate|]. run_async.
  intros [= <- <-].
  destruct w as [g r].
  unfold check_side, store_sample, shouldAlert.
  split_async; reflexivity.
Qed.

Lemma uninterrupted_no_sample (io : Network) (n : nat) (w : World) :
  fetch_outcome io = NoSample ->
  cycle io n w = (Normal tt, w).
Proof.
  unfold fetch_outcome, read_candle, candle_field, cycle, checkLiquidations.
  run_async.
  destruct (http_get io) as [body|error]; [|discriminate]. run_async.
  destruct (get_property _ "length") as [e|len]; [discriminate|]. run_async.
  destruct (ToNumber len) as [e|x]; [discriminate|]. run_async.
  destruct (gt x 0%float); [|now destruct w].
  destruct (get_property _ "0") as [e|c]; [discriminate|].
  destruct (get_property c "longLiquidationUsd") as [e|long]; [discriminate|].
  destruct (ToString (or_else long _)) as [e|lt]; [discriminate|].
  destruct (get_property c "shortLiquidationUsd") as [e|short]; [discriminate|].
  destruct (ToString (or_else short _)) as [e|st]; discriminate.
Qed.

Lemma uninterrupted_failed (io : Network) (n : nat) (w : World) (e : js_error) :
  fetch_outcome io = Failed e ->
  cycle io n w
  = (Normal tt,
     if transient (Failed e) && (n <? 3)%nat then schedule_retry n w else w).
Proof.
  unfold fetch_outcome, read_candle, candle_field, cycle, checkLiquidations,
    transient, schedule_retry.
  run_async. destruct w as [g r].
  destruct (http_get io) as [body|error]; run_async.
  - destruct (get_property _ "length") as [e1|len]; run_async.
    { intros [= ->]. now destruct (_ && _). }
    destruct (ToNumber len) as [e1|x]; run_async.
    { intros [= ->]. now destruct (_ && _). }
    destruct (gt x 0%float); [|discriminate]. run_async.
    destruct (get_property _ "0") as [e1|c]; run_async.
    { intros [= ->]. now destruct (_ && _). }
    destruct (get_property c "longLiquidationUsd") as [e1|long]; run_async.
    { intros [= ->]. now destruct (_ && _). }
    destruct (ToString (or_else long _)) as [e1|lt]; run_async.
    { intros [= ->]. now destruct (_ && _). }
    destruct (get_property c "shortLiquidationUsd") as [e1|short]; [discriminate|].
    destruct (ToString (or_else short _)) as [e1|st]; discriminate.
  - intros [= ->]. now destruct (_ && _).
Qed.

Lemma uninterrupted_long_only (io : Network) (n : nat) (w : World)
    (l : number) (e : js_error) :
  fetch_outcome io = LongOnly l e ->
  cycle io n w
  = (Normal tt,
     if transient (LongOnly l e) && (n <? 3)%nat
     then schedule_retry n (store_long l w) else store_long l w).
Proof.
  unfold fetch_outcome, read_candle, candle_field, cycle, checkLiquidations,
    transient, schedule_retry, store_long.
  run_async. destruct w as [g r].
  destruct (http_get io) as [body|error]; [|discriminate]. run_async.
  destruct (get_property _ "length") as [e1|len]; [discriminate|]. run_async.
  destruct (ToNumber len) as [e1|x]; [discriminate|]. run_async.
  destruct (gt x 0%float); [|discriminate]. run_async.
  destruct (get_property _ "0") as [e1|c]; [discriminate|]. run_async.
  destruct (get_property c "longLiquidationUsd") as [e1|long]; [discriminate|].
  run_async.
  destruct (ToString (or_else long _)) as [e1|lt]; [discriminate|]. run_async.
  destruct (get_property c "shortLiquidationUsd") as [e1|short]; run_async.
  { intros [= <- <-]. now destruct (_ && _). }
  destruct (ToString (or_else short _)) as [e1|st]; [|discriminate]. run_async.
  intros [= <- <-]. now destruct (_ && _).
Qed.

(** The errors thrown while the response is read are [TypeError]s. *)
Lemma get_property_error (v : value) (name : string) (e : js_error) :
  get_property v name = inl e -> e = TypeError.
Proof.
  destruct v; cbn [get_property]; intros H;
    try (injection H as <-; reflexivity); try discriminate H.
  all: repeat case_match; discriminate H.
Qed.

Lemma join_error (l : list (js_error + string)) (e : js_error) :
  join l = inl e -> In (inl e) l.
Proof.
  induction l as [|x l IH]; [discriminate|].
  destruct l as [|y l']; [intros H; left; exact H|].
  change (join (x :: y :: l'))
    with (match x with
          | inl error => inl error
          | inr first =>
              match join (y :: l') with
              | inl error => inl error
              | inr rest => inr (first +:+ "," +:+ rest)
              end
          end).
  destruct x as [e0|first]; [intros [= ->]; now left|].
  destruct (join (y :: l')) as [e1|rest]; [|discriminate].
  intros [= ->]. right. now apply IH.
Qed.

Lemma ToString_error : forall (v : value) (e : js_error),
  ToString v = inl e -> e = TypeError.
Proof.
  fix IH 1. intros v e. destruct v as [| | | | |elems|props]; cbn [ToString];
    try discriminate.
  - intros H. apply join_error in H.
    induction elems as [|a elems IHl]; [destruct H|].
    destruct H as [H|H]; [|exact (IHl H)].
    assert (Ha : ToString a = inl e) by (destruct a; try discriminate H; exact H).
    exact (IH a e Ha).
  - destruct (props !! "toString"); [now intros [= <-]|discriminate].
Qed.

Lemma ToNumber_error (v : value) (e : js_error) : ToNumber v = inl e -> e = TypeError.
Proof.
  destruct v; cbn [ToNumber]; try discriminate.
  - destruct (ToString (VArr elems)) eqn:H; [|discriminate].
    intros [= <-]. exact (ToString_error _ _ H).
  - destruct (ToString (VObj props)) eqn:H; [|discriminate].
    intros [= <-]. exact (ToString_error _ _ H).
Qed.

Lemma candle_field_error (v : value) (e : js_error) :
  candle_field v = inl e -> e = TypeError.
Proof.
  unfold candle_field. destruct (ToString _) eqn:H; [|discriminate].
  intros [= <-]. exact (ToString_error _ _ H).
Qed.

Lemma read_candle_error (c : value) :
  (forall l e, read_candle c = LongOnly l e -> e = TypeError)
  /\ (forall e, read_candle c = Failed e -> e = TypeError).
Proof.
  unfold read_candle.
  destruct (get_property c "longLiquidationUsd") as [e1|long] eqn:H1.
  { split; [discriminate|]. intros e [= <-]. exact (get_property_error _ _ _ H1). }
  destruct (candle_field long) as [e1|l1] eqn:H2.
  { split; [discriminate|]. intros e [= <-]. exact (candle_field_error _ _ H2). }
  destruct (get_property c "shortLiquidationUsd") as [e1|short] eqn:H3.
  { split; [|discriminate]. intros l e [= _ <-]. exact (get_property_error _ _ _ H3). }
  destruct (candle_field short) as [e1|s1] eqn:H4; [|split; discriminate].
  split; [|discriminate]. intros l e [= _ <-]. exact (candle_field_error _ _ H4).
Qed.

(** Only a rejected request is transient: an error thrown after the
    request has resolved has no [code]. *)
Lemma fetch_errors (io : Network) :
  (forall l e, fetch_outcome io = LongOnly l e -> e = TypeError)
  /\ (forall e, fetch_outcome io = Failed e ->
        http_get io = Rejected e \/ e = TypeError).
Proof.
  unfold fetch_outcome.
  destruct (http_get io) as [body|error].
  2:{ split; [discriminate|]. intros e [= <-]. now left. }
  destruct (get_property _ "length") as [e1|len] eqn:H1.
  { split; [discriminate|]. intros e [= <-]. right.
    exact (get_property_error _ _ _ H1). }
  destruct (ToNumber len) as [e1|x] eqn:H2.
  { split; [discriminate|]. intros e [= <-]. right. exact (ToNumber_error _ _ H2). }
  destruct (gt x 0%float); [|split; discriminate].
  destruct (get_property _ "0") as [e1|c] eqn:H3.
  { split; [discriminate|]. intros e [= <-]. right.
    exact (get_property_error _ _ _ H3). }
  destruct (read_candle_error c) as [Ha Hb]. split; [exact Ha|].
  intros e He. right. exact (Hb e He).
Qed.

Lemma transient_is_rejected (io : Network) :
  transient (fetch_outcome io) = true ->
  exists e, fetch_outcome io = Failed e /\ http_get io = Rejected e.
Proof.
  destruct (fetch_errors io) as [Ha Hb].
  destruct (fetch_outcome io) as [l s|l e| |e] eqn:H; try discriminate.
  - rewrite (Ha l e eq_refl). discriminate.
  - destruct (Hb e eq_refl) as [Hr| ->]; [|discriminate].
    intros _. now exists e.
Qed.

(** Every cycle completes normally: the [catch] block lets nothing out. *)
Lemma cycle_returns (io : Network) (n : nat) (w : World) :
  fst (cycle io n w) = Normal tt.
Proof.
  destruct (fetch_outcome io) as [l s|l e| |e] eqn:H.
  - now rewrite (uninterrupted_sample _ _ _ _ _ H).
  - now rewrite (uninterrupted_long_only _ _ _ _ _ H).
  - now rewrite (uninterrupted_no_sample _ _ _ H).
  - now rewrite (uninterrupted_failed _ _ _ _ H).
Qed.

(** ** What one side's block does *)

Lemma check_side_sent (sd : side) (io : Network) (w : World) :
  sent (rt (check_side sd io w)) = sent (rt w) ++ side_attempt sd io w.
Proof.
  unfold check_side, side_attempt.
  destruct (shouldAlert _ _ _); cbn [rt sent]; [reflexivity|].
  now rewrite app_nil_r.
Qed.

Lemma check_side_memory (sd : side) (io : Network) (w : World) :
  last_alerted sd (vars (check_side sd io w))
  = match side_attempt sd io w with
    | [(_, true)] => Some (last_sample sd (vars w))
    | _ => last_alerted sd (vars w)
    end.
Proof.
  unfold check_side, side_attempt.
  destruct (shouldAlert _ _ _); [|reflexivity].
  destruct (telegram_ok _ _ _); destruct sd; reflexivity.
Qed.

(** A block leaves the thresholds, the sample and the other side's
    memory alone. *)
Lemma check_side_frame (sd : side) (io : Network) (w : World) :
  let g := vars w in
  let g' := vars (check_side sd io w) in
  longThreshold g' = longThreshold g
  /\ shortThreshold g' = shortThreshold g
  /\ pollingIntervalMs g' = pollingIntervalMs g
  /\ lastLongLiq g' = lastLongLiq g
  /\ lastShortLiq g' = lastShortLiq g
  /\ intervalId g' = intervalId g
  /\ (forall other, other <> sd -> last_alerted other g' = last_alerted other g).
Proof.
  unfold check_side. cbn zeta.
  destruct (shouldAlert _ _ _); [|now repeat split].
  destruct (telegram_ok _ _ _); cbn [vars]; [|now repeat split].
  destruct sd; repeat split; try reflexivity;
    intros [] H; try reflexivity; now destruct H.
Qed.

Lemma check_side_runtime (sd : side) (io : Network) (w : World) :
  next_timer (rt (check_side sd io w)) = next_timer (rt w)
  /\ intervals (rt (check_side sd io w)) = intervals (rt w)
  /\ timeouts (rt (check_side sd io w)) = timeouts (rt w).
Proof.
  unfold check_side. destruct (shouldAlert _ _ _); now repeat split.
Qed.

Lemma about_own_text (sd : side) (v : number) (ok : bool) :
  about sd (alert_text sd v, ok) = true.
Proof. destruct sd; reflexivity. Qed.

Lemma about_other_text (sd other : side) (v : number) (ok : bool) :
  other <> sd -> about other (alert_text sd v, ok) = false.
Proof. destruct sd, other; intros H; try reflexivity; now destruct H. Qed.

Lemma side_attempt_own (sd : side) (io : Network) (w : World) :
  filter (fun a => about sd a = true) (side_attempt sd io w) = side_attempt sd io w.
Proof.
  unfold side_attempt. destruct (shouldAlert _ _ _); [|reflexivity].
  rewrite filter_cons_True by apply about_own_text. reflexivity.
Qed.

Lemma side_attempt_other (sd other : side) (io : Network) (w : World) :
  other <> sd ->
  filter (fun a => about other a = true) (side_attempt sd io w) = [].
Proof.
  intros H. unfold side_attempt. destruct (shouldAlert _ _ _); [|reflexivity].
  rewrite filter_cons_False; [reflexivity|].
  rewrite (about_other_text _ _ _ _ H). discriminate.
Qed.

Lemma new_sent_app (w w' : World) (l : list (string * bool)) :
  sent (rt w') = sent (rt w) ++ l -> new_sent w w' = l.
Proof. intros H. unfold new_sent. rewrite H. apply drop_app_length. Qed.

(** The messages of a cycle that has a sample: the long attempt, then
    the short one. *)
Lemma cycle_new_sent (io : Network) (n : nat) (w : World) (l s : number) :
  fetch_outcome io = Sample l s ->
  new_sent w (exec (cycle io n) w)
  = side_attempt Long io (store_sample l s w)
    ++ side_attempt Short io (check_side Long io (store_sample l s w)).
Proof.
  intros H. apply new_sent_app. unfold exec.
  rewrite (uninterrupted_sample _ _ _ _ _ H). cbn [snd].
  now rewrite !check_side_sent, <- app_assoc.
Qed.

Lemma block_input_reads (sd : side) (io : Network) (l s : number) (w : World) :
  let g := vars (block_input sd io l s w) in
  last_sample sd g = pick sd l s
  /\ threshold sd g = threshold sd (vars w)
  /\ last_alerted sd g = last_alerted sd (vars w).
Proof.
  destruct sd; cbn [block_input]; [now repeat split|].
  destruct (check_side_frame Long io (store_sample l s w))
    as (_ & H2 & _ & _ & H5 & _ & H7).
  cbn zeta in *. cbn [last_sample threshold last_alerted pick].
  rewrite H2, H5. split; [reflexivity|]. split; [reflexivity|].
  now apply (H7 Short).
Qed.

Lemma cycle_attempts (sd : side) (io : Network) (n : nat) (w : World) (l s : number) :
  fetch_outcome io = Sample l s ->
  attempts sd w (exec (cycle io n) w)
  = side_attempt sd io (block_input sd io l s w).
Proof.
  intros H. unfold attempts. rewrite (cycle_new_sent _ _ _ _ _ H), filter_app.
  destruct sd; cbn [block_input].
  - rewrite side_attempt_own, side_attempt_other by discriminate.
    apply app_nil_r.
  - now rewrite side_attempt_other, side_attempt_own by discriminate.
Qed.

Lemma side_attempt_cases (sd : side) (io : Network) (w : World) :
  let g := vars w in
  (shouldAlert (last_sample sd g) (threshold sd g) (last_alerted sd g) = true
   /\ exists ok, side_attempt sd io w = [(alert_text sd (last_sample sd g), ok)])
  \/ (shouldAlert (last_sample sd g) (threshold sd g) (last_alerted sd g) = false
      /\ side_attempt sd io w = []).
Proof.
  unfold side_attempt. cbn zeta. destruct (shouldAlert _ _ _).
  - left. split; [reflexivity|]. now eexists.
  - now right.
Qed.

(** The memory of a side after a cycle with a sample. *)
Lemma cycle_memory (sd : side) (io : Network) (n : nat) (w : World) (l s : number) :
  fetch_outcome io = Sample l s ->
  last_alerted sd (vars (exec (cycle io n) w))
  = match attempts sd w (exec (cycle io n) w) with
    | [(_, true)] => Some (pick sd l s)
    | _ => last_alerted sd (vars w)
    end.
Proof.
  intros H. rewrite (cycle_attempts _ _ _ _ _ _ H).
  unfold exec. rewrite (uninterrupted_sample _ _ _ _ _ H). cbn [snd].
  destruct (block_input_reads sd io l s w) as (H1 & _ & H3). cbn zeta in *.
  destruct sd; cbn [block_input] in *.
  - destruct (check_side_frame Short io (check_side Long io (store_sample l s w)))
      as (_ & _ & _ & _ & _ & _ & H7).
    cbn zeta in H7. rewrite (H7 Long) by discriminate.
    rewrite check_side_memory, H1, H3. reflexivity.
  - rewrite check_side_memory, H1, H3. reflexivity.
Qed.

(** A cycle changes neither threshold. *)
Lemma cycle_thresholds (io : Network) (n : nat) (w : World) (sd : side) :
  threshold sd (vars (exec (cycle io n) w)) = threshold sd (vars w).
Proof.
  unfold exec. destruct (fetch_outcome io) as [l s|l e| |e] eqn:H.
  - rewrite (uninterrupted_sample _ _ _ _ _ H). cbn [snd].
    destruct (check_side_frame Short io (check_side Long io (store_sample l s w)))
      as (H1 & H2 & _).
    destruct (check_side_frame Long io (store_sample l s w)) as (H3 & H4 & _).
    cbn zeta in *. rewrite H3 in H1. rewrite H4 in H2.
    destruct sd; cbn [threshold]; assumption.
  - rewrite (uninterrupted_long_only _ _ _ _ _ H). cbn [snd].
    destruct (_ && _); now destruct sd.
  - now rewrite (uninterrupted_no_sample _ _ _ H).
  - rewrite (uninterrupted_failed _ _ _ _ H). cbn [snd].
    now destruct (_ && _).
Qed.

(** ** Edge-triggered alerts *)

Lemma cycle_attempts_cases (sd : side) (io : Network) (n : nat) (w : World) (l s : number) :
  fetch_outcome io = Sample l s ->
  let v := pick sd l s in
  let g := vars w in
  (shouldAlert v (threshold sd g) (last_alerted sd g) = true
   /\ exists ok, attempts sd w (exec (cycle io n) w) = [(alert_text sd v, ok)])
  \/ (shouldAlert v (threshold sd g) (last_alerted sd g) = false
      /\ attempts sd w (exec (cycle io n) w) = []).
Proof.
  intros H. cbn zeta. rewrite (cycle_attempts _ _ _ _ _ _ H).
  destruct (block_input_reads sd io l s w) as (H1 & H2 & H3). cbn zeta in *.
  rewrite <- H1, <- H2, <- H3. apply side_attempt_cases.
Qed.

(** C1 (amended). In a cycle that fetched a sample and that nothing
    interrupts, a side (long or short) makes a dispatch attempt, and then
    exactly one, if and only if its fetched value is strictly above its
    threshold and its last alerted value is absent or differs from the
    fetched value.  In particular, when such a cycle has dispatched a
    value successfully, the next cycle fetching the same value for that
    side dispatches nothing for it. *)
Theorem edge_triggered_dispatch
    (sd : side) (io1 io2 : Network) (n1 n2 : nat) (w : World)
    (l1 s1 l2 s2 : number) :
  fetch_outcome io1 = Sample l1 s1 ->
  fetch_outcome io2 = Sample l2 s2 ->
  let w1 := exec (cycle io1 n1) w in
  let w2 := exec (cycle io2 n2) w1 in
  (attempts sd w w1 <> []
   <-> shouldAlert_spec (pick sd l1 s1) (threshold sd (vars w)) (last_alerted sd (vars w)))
  /\ (length (attempts sd w w1) <= 1)%nat
  /\ (pick sd l2 s2 = pick sd l1 s1 ->
      (exists text, attempts sd w w1 = [(text, true)]) ->
      attempts sd w1 w2 = []).
Proof.
  intros H1 H2 w1 w2.
  pose proof (cycle_attempts_cases sd io1 n1 w l1 s1 H1) as Hc. cbn zeta in Hc.
  fold w1 in Hc. rewrite <- shouldAlert_iff.
  split; [|split].
  - destruct Hc as [[Ha [ok Hs]]|[Ha Hs]]; rewrite Hs, Ha; split;
      congruence || discriminate.
  - destruct Hc as [[_ [ok ->]]|[_ ->]]; cbn; lia.
  - intros Hsame [text Htext].
    destruct Hc as [[Ha [ok Hs]]|[_ Hs]]; [|rewrite Hs in Htext; discriminate].
    pose proof (cycle_memory sd io1 n1 w l1 s1 H1) as Hm. fold w1 in Hm.
    rewrite Htext in Hm.
    pose proof (cycle_attempts_cases sd io2 n2 w1 l2 s2 H2) as Hc2.
    cbn zeta in Hc2. fold w2 in Hc2.
    destruct Hc2 as [[Hb _]|[_ Hs2]]; [|exact Hs2].
    exfalso. unfold shouldAlert in Ha, Hb.
    apply andb_true_iff in Ha as [Hgt _]. apply andb_true_iff in Hb as [_ Hnew].
    rewrite Hm, Hsame in Hnew. cbn [null_or_differs] in Hnew.
    rewrite (gt_not_differs _ _ Hgt) in Hnew. discriminate.
Qed.

(** ** Alert memory *)

(** X12. When a side triggers a dispatch attempt in a cycle that nothing
    interrupts, its alert memory becomes the dispatched value exactly
    when the dispatcher reports success and keeps its former content when
    it reports failure; after a failure, a next cycle fetching the same
    value for that side attempts the dispatch again. *)
Theorem undisturbed_memory_follows_acknowledgement
    (sd : side) (io1 io2 : Network) (n1 n2 : nat) (w : World)
    (l1 s1 l2 s2 : number) :
  fetch_outcome io1 = Sample l1 s1 ->
  fetch_outcome io2 = Sample l2 s2 ->
  shouldAlert_spec (pick sd l1 s1) (threshold sd (vars w)) (last_alerted sd (vars w)) ->
  let v := pick sd l1 s1 in
  let w1 := exec (cycle io1 n1) w in
  let w2 := exec (cycle io2 n2) w1 in
  exists ok : bool,
    attempts sd w w1 = [(alert_text sd v, ok)]
    /\ last_alerted sd (vars w1) = (if ok then Some v else last_alerted sd (vars w))
    /\ (ok = false -> pick sd l2 s2 = v ->
        exists ok2, attempts sd w1 w2 = [(alert_text sd v, ok2)]).
Proof.
  intros H1 H2 Hspec v w1 w2. apply shouldAlert_iff in Hspec.
  destruct (cycle_attempts_cases sd io1 n1 w l1 s1 H1) as [[_ [ok Hs]]|[Ha _]];
    cbn zeta in *; [|congruence].
  fold w1 v in Hs. exists ok. split; [exact Hs|].
  pose proof (cycle_memory sd io1 n1 w l1 s1 H1) as Hm. fold w1 in Hm.
  rewrite Hs in Hm. split; [destruct ok; exact Hm|].
  intros -> Hsame.
  destruct (cycle_attempts_cases sd io2 n2 w1 l2 s2 H2) as [[_ Hex]|[Hb _]];
    cbn zeta in *.
  - fold w2 in Hex. now rewrite Hsame in Hex.
  - exfalso. rewrite Hsame, Hm in Hb. unfold w1 in Hb.
    rewrite cycle_thresholds in Hb. fold v in Hspec. congruence.
Qed.

Lemma edge_triggered_dispatch_witness :
  fetch_outcome fetch_6000000 = Sample 6000000%float 0%float
  /\ attempts Long startup (exec (cycle fetch_6000000 0) startup)
     = [(alert_text Long 6000000%float, true)]
  /\ attempts Long (exec (cycle fetch_6000000 0) startup)
       (exec (cycle fetch_6000000 0)
          (exec (cycle fetch_6000000 0) startup))
     = [].
Proof.
  assert (H : fetch_outcome fetch_6000000 = Sample 6000000%float 0%float)
    by (vm_compute; reflexivity).
  destruct (edge_triggered_dispatch Long fetch_6000000 fetch_6000000 0 0 startup
              _ _ _ _ H H) as (_ & _ & H3).
  split; [exact H|]. split; [vm_compute; reflexivity|].
  apply H3; [reflexivity|].
  exists (alert_text Long 6000000%float). vm_compute; reflexivity.
Defined.

Lemma undisturbed_memory_follows_acknowledgement_witness :
  fetch_outcome fetch_6000000_undelivered = Sample 6000000%float 0%float
  /\ shouldAlert_spec 6000000%float (longThreshold (vars startup))
       (lastLongAlertValue (vars startup))
  /\ exists ok : bool,
       attempts Long startup (exec (cycle fetch_6000000_undelivered 0) startup)
       = [(alert_text Long 6000000%float, ok)]
       /\ lastLongAlertValue
            (vars (exec (cycle fetch_6000000_undelivered 0) startup))
          = (if ok then Some 6000000%float else None)
       /\ (ok = false -> 6000000%float = 6000000%float ->
           exists ok2,
             attempts Long (exec (cycle fetch_6000000_undelivered 0) startup)
               (exec (cycle fetch_6000000_undelivered 0)
                  (exec (cycle fetch_6000000_undelivered 0) startup))
             = [(alert_text Long 6000000%float, ok2)]).
Proof.
  assert (H : fetch_outcome fetch_6000000_undelivered = Sample 6000000%float 0%float)
    by (vm_compute; reflexivity).
  assert (Hs : shouldAlert_spec 6000000%float (longThreshold (vars startup))
                 (lastLongAlertValue (vars startup)))
    by (split; [vm_compute; reflexivity | left; reflexivity]).
  split; [exact H|]. split; [exact Hs|].
  exact (undisturbed_memory_follows_acknowledgement Long fetch_6000000_undelivered
           fetch_6000000_undelivered 0 0 startup _ _ _ _ H H Hs).
Defined.

(** ** Overlapping cycles *)

(** Edge triggering does not survive two cycles that overlap.  Two consecutive
    ticks fetch the same value, 6,000,000, above the threshold, and the
    message of the first is acknowledged; the second tick sends the value
    again all the same, because its fetch resolved while the first
    message was on its way, when nothing was remembered yet. *)
Lemma overlapping_ticks_dispatch_twice :
  let P := run (overlapping_ticks (response (VArr [candle "6000000" "0"])) 2) boot in
  sent (rt (world P))
  = [(alert_text Long 6000000%float, true); (alert_text Long 6000000%float, true)]
  /\ pending P = []
  /\ gt 6000000%float (longThreshold (vars (world P))) = true.
Proof. vm_compute. repeat constructor. Qed.

(** C2. The alert memory of a side does not always hold the value that
    was dispatched.  A first cycle fetches 6,000,000 and sends its
    message; while the message is on its way a second cycle fetches
    1,000,000, which is below the threshold and is not sent; when the
    message is acknowledged, the first cycle stores [lastLongLiq] as it
    stands then: the memory becomes 1,000,000, a value that was never
    dispatched, and the only message sent is the one of 6,000,000. *)
Theorem overlapped_dispatch_remembers_another_value :
  let P := run (overlapping_ticks (response (VArr [candle "1000000" "0"])) 1) boot in
  sent (rt (world P)) = [(alert_text Long 6000000%float, true)]
  /\ lastLongAlertValue (vars (world P)) = Some 1000000%float
  /\ lastLongAlertValue (vars (world P)) <> Some 6000000%float
  /\ gt 1000000%float (longThreshold (vars (world P))) = false
  /\ pending P = [].
Proof.
  vm_compute. split; [reflexivity|]. split; [reflexivity|].
  split; [intros H; discriminate H|]. split; reflexivity.
Qed.

(** ** Compact format *)

(** The examples of the specification. *)
Lemma formatShortValue_2345678 : formatShortValue 2345678%float = "2.34M".
Proof. vm_compute. reflexivity. Qed.

Lemma formatShortValue_15999 : formatShortValue 15999%float = "15K".
Proof. vm_compute. reflexivity. Qed.

Lemma formatShortValue_999_995 :
  ge (parseFloat "999.995") 1000%float = false
  /\ formatShortValue (parseFloat "999.995") = "1,000.00"
  /\ formatWithCommasAndDot (parseFloat "999.995") = "1,000.00".
Proof. vm_compute. repeat split; reflexivity. Qed.

(** The three branches, in the arithmetic of the code. *)
Lemma formatShortValue_branches (v : number) :
  (ge v 1000000%float = true ->
   formatShortValue v
   = Number_toString
       (PrimFloat.div
          (Math_floor (PrimFloat.mul (PrimFloat.div v 1000000%float) 100%float))
          100%float) +:+ "M")
  /\ (ge v 1000000%float = false -> ge v 1000%float = true ->
      formatShortValue v
      = Number_toString (Math_floor (PrimFloat.div v 1000%float)) +:+ "K")
  /\ (ge v 1000000%float = false -> ge v 1000%float = false ->
      formatShortValue v = toLocaleString_en_US 2 v).
Proof.
  unfold formatShortValue. split; [|split].
  - now intros ->.
  - now intros -> ->.
  - now intros -> ->.
Qed.

(** Below a thousand the compact form is the full form, whatever the
    value. *)
Lemma formatShortValue_small (v : number) :
  ge v 1000000%float = false -> ge v 1000%float = false ->
  formatShortValue v = formatWithCommasAndDot v.
Proof. intros H1 H2. unfold formatShortValue. now rewrite H1, H2. Qed.

(** C3. The compact form of 8,200,000 is not the millions quotient cut
    after two decimals, which is 8.20: the quotient is held as the double
    just below 8.2, its product by 100 is 819.9999999999999, the floor
    cuts it to 819, and the text is 8.19M.  The alert then shows both
    $8,200,000.00 and ($8.19M). *)
Theorem formatShortValue_8200000 :
  formatShortValue 8200000%float = "8.19M"
  /\ Math_floor (PrimFloat.mul (PrimFloat.div 8200000%float 1000000%float) 100%float)
     = 819%float
  /\ millions_truncated_spec 8200000 = 820
  /\ includes (alert_text Long 8200000%float) "$8,200,000.00" = true
  /\ includes (alert_text Long 8200000%float) "($8.19M)" = true.
Proof. vm_compute. repeat constructor. Qed.

(** The same slip on other round amounts. *)
Lemma formatShortValue_round_amounts :
  map formatShortValue [1150000; 2300000; 4350000; 8200000]%float
  = ["1.14M"; "2.29M"; "4.34M"; "8.19M"].
Proof. vm_compute. reflexivity. Qed.

(** ** The three-cycle scenario *)

Lemma cycle_new_sent_sides (io : Network) (n : nat) (w : World) (l s : number) :
  fetch_outcome io = Sample l s ->
  new_sent w (exec (cycle io n) w)
  = attempts Long w (exec (cycle io n) w)
    ++ attempts Short w (exec (cycle io n) w).
Proof.
  intros H. rewrite (cycle_new_sent _ _ _ _ _ H).
  now rewrite !(cycle_attempts _ _ _ _ _ _ H).
Qed.

(** A side at or below its threshold sends nothing. *)
Lemma quiet_side (sd : side) (io : Network) (n : nat) (w : World) (l s : number) :
  fetch_outcome io = Sample l s ->
  gt (pick sd l s) (threshold sd (vars w)) = false ->
  attempts sd w (exec (cycle io n) w) = [].
Proof.
  intros H Hgt.
  destruct (cycle_attempts_cases sd io n w l s H) as [[Ha _]|[_ Hs]];
    cbn zeta in *; [|exact Hs].
  unfold shouldAlert in Ha. rewrite Hgt in Ha. discriminate.
Qed.

(** The texts of the scenario, computed. *)
Lemma alert_text_6000000 :
  includes (alert_text Long 6000000%float) "6,000,000.00" = true
  /\ includes (alert_text Long 6000000%float) "6M" = true
  /\ includes (alert_text Long 6000000%float) "6.0M" = false.
Proof. vm_compute. repeat constructor. Qed.

Lemma alert_text_7250000 :
  includes (alert_text Long 7250000%float) "7,250,000.00" = true
  /\ includes (alert_text Long 7250000%float) "7.25M" = true.
Proof. vm_compute. repeat constructor. Qed.

Lemma scenario_decisions :
  shouldAlert 6000000%float 5000000%float None = true
  /\ shouldAlert 6000000%float 5000000%float (Some 6000000%float) = false
  /\ shouldAlert 7250000%float 5000000%float (Some 6000000%float) = true.
Proof. vm_compute. repeat constructor. Qed.

Lemma scenario_first_cycle :
  longThreshold (vars startup) = 5000000%float
  /\ lastLongAlertValue (vars startup) = None
  /\ fetch_outcome fetch_6000000 = Sample 6000000%float 0%float
  /\ new_sent startup (exec (cycle fetch_6000000 0) startup)
     = [(alert_text Long 6000000%float, true)].
Proof. vm_compute. repeat constructor. Qed.

(** The scenario as the specification words it fails on its first
    cycle: with the long threshold at 5,000,000 and no alert memory, the
    cycle fetching 6,000,000 sends one message, and no message it sends
    contains 6.0M. *)
Lemma scenario_first_alert_has_no_6_0M :
  longThreshold (vars startup) = 5000000%float
  /\ lastLongAlertValue (vars startup) = None
  /\ fetch_outcome fetch_6000000 = Sample 6000000%float 0%float
  /\ length (new_sent startup (exec (cycle fetch_6000000 0) startup)) = 1%nat
  /\ ~ exists text ok,
         In (text, ok) (new_sent startup (exec (cycle fetch_6000000 0) startup))
         /\ includes text "6,000,000.00" = true
         /\ includes text "6.0M" = true.
Proof.
  destruct scenario_first_cycle as (H1 & H2 & H3 & H4).
  rewrite H4. repeat (split; [assumption || reflexivity|]).
  intros (text & ok & [Hin|[]] & _ & H).
  assert (Ht : text = alert_text Long 6000000%float) by congruence.
  destruct alert_text_6000000 as (_ & _ & Hn).
  rewrite Ht, Hn in H. discriminate H.
Qed.

(** C4 (amended). With the long threshold at 5,000,000, no long alert
    memory and short values at or below the short threshold: a cycle
    fetching 6,000,000 sends exactly one message, which contains
    6,000,000.00 and 6M; once that message is acknowledged, a second cycle
    fetching 6,000,000 sends nothing; a third cycle fetching 7,250,000
    sends exactly one message, which contains 7,250,000.00 and 7.25M. *)
Theorem three_cycle_scenario
    (w : World) (io1 io2 io3 : Network) (n1 n2 n3 : nat) (s1 s2 s3 : number) :
  longThreshold (vars w) = 5000000%float ->
  lastLongAlertValue (vars w) = None ->
  fetch_outcome io1 = Sample 6000000%float s1 ->
  fetch_outcome io2 = Sample 6000000%float s2 ->
  fetch_outcome io3 = Sample 7250000%float s3 ->
  gt s1 (shortThreshold (vars w)) = false ->
  gt s2 (shortThreshold (vars w)) = false ->
  gt s3 (shortThreshold (vars w)) = false ->
  telegram_ok io1 (length (sent (rt w))) (alert_text Long 6000000%float) = true ->
  let w1 := exec (cycle io1 n1) w in
  let w2 := exec (cycle io2 n2) w1 in
  let w3 := exec (cycle io3 n3) w2 in
  exists (text1 text3 : string) (ok3 : bool),
    new_sent w w1 = [(text1, true)]
    /\ includes text1 "6,000,000.00" = true /\ includes text1 "6M" = true
    /\ new_sent w1 w2 = []
    /\ new_sent w2 w3 = [(text3, ok3)]
    /\ includes text3 "7,250,000.00" = true /\ includes text3 "7.25M" = true.
Proof.
  intros Hthr Hmem H1 H2 H3 Hs1 Hs2 Hs3 Hack w1 w2 w3.
  (* first cycle *)
  assert (Hq1 : attempts Short w w1 = []) by (now apply (quiet_side Short _ _ _ _ _ H1)).
  assert (Ha1 : attempts Long w w1 = [(alert_text Long 6000000%float, true)]).
  { unfold w1. rewrite (cycle_attempts _ _ _ _ _ _ H1). cbn [block_input].
    unfold side_attempt, store_sample.
    cbn [vars rt last_sample threshold last_alerted set_lastLongLiq set_lastShortLiq
         lastLongLiq longThreshold lastLongAlertValue].
    rewrite Hthr, Hmem, Hack.
    destruct scenario_decisions as (-> & _). reflexivity. }
  assert (Hm1 : lastLongAlertValue (vars w1) = Some 6000000%float).
  { pose proof (cycle_memory Long io1 n1 w _ _ H1) as Hm. fold w1 in Hm.
    now rewrite Ha1 in Hm. }
  assert (Ht1 : forall sd, threshold sd (vars w1) = threshold sd (vars w))
    by (intros sd; apply cycle_thresholds).
  (* second cycle *)
  assert (Hq2 : attempts Short w1 w2 = []).
  { apply (quiet_side Short _ _ _ _ _ H2). now rewrite Ht1. }
  assert (Ha2 : attempts Long w1 w2 = []).
  { destruct (cycle_attempts_cases Long io2 n2 w1 _ _ H2) as [[Ha _]|[_ Hs]];
      cbn zeta in *; [|exact Hs].
    cbn [pick last_alerted] in Ha. rewrite Hm1, (Ht1 Long) in Ha.
    cbn [threshold] in Ha. rewrite Hthr in Ha.
    destruct scenario_decisions as (_ & Hn & _). congruence. }
  assert (Hm2 : lastLongAlertValue (vars w2) = Some 6000000%float).
  { pose proof (cycle_memory Long io2 n2 w1 _ _ H2) as Hm. fold w2 in Hm.
    rewrite Ha2 in Hm. cbn [last_alerted] in Hm. congruence. }
  assert (Ht2 : forall sd, threshold sd (vars w2) = threshold sd (vars w)).
  { intros sd. unfold w2. now rewrite cycle_thresholds. }
  (* third cycle *)
  assert (Hq3 : attempts Short w2 w3 = []).
  { apply (quiet_side Short _ _ _ _ _ H3). now rewrite Ht2. }
  assert (Ha3 : exists ok3, attempts Long w2 w3 = [(alert_text Long 7250000%float, ok3)]).
  { destruct (cycle_attempts_cases Long io3 n3 w2 _ _ H3) as [[_ Hex]|[Ha _]];
      cbn zeta in *; [exact Hex|].
    cbn [pick last_alerted] in Ha. rewrite Hm2, (Ht2 Long) in Ha.
    cbn [threshold] in Ha. rewrite Hthr in Ha.
    destruct scenario_decisions as (_ & _ & Hn). congruence. }
  destruct Ha3 as [ok3 Ha3].
  exists (alert_text Long 6000000%float), (alert_text Long 7250000%float), ok3.
  pose proof (cycle_new_sent_sides io1 n1 w _ _ H1) as Hn1. fold w1 in Hn1.
  pose proof (cycle_new_sent_sides io2 n2 w1 _ _ H2) as Hn2. fold w2 in Hn2.
  pose proof (cycle_new_sent_sides io3 n3 w2 _ _ H3) as Hn3. fold w3 in Hn3.
  rewrite Hn1, Hn2, Hn3, Ha1, Hq1, Ha2, Hq2, Ha3, Hq3.
  destruct alert_text_6000000 as (I1 & I2 & _).
  destruct alert_text_7250000 as (I3 & I4).
  repeat split; assumption.
Qed.

Lemma three_cycle_scenario_witness :
  longThreshold (vars startup) = 5000000%float
  /\ lastLongAlertValue (vars startup) = None
  /\ fetch_outcome fetch_6000000 = Sample 6000000%float 0%float
  /\ fetch_outcome fetch_7250000 = Sample 7250000%float 0%float
  /\ gt 0%float (shortThreshold (vars startup)) = false
  /\ telegram_ok fetch_6000000 (length (sent (rt startup)))
       (alert_text Long 6000000%float) = true
  /\ exists (text1 text3 : string) (ok3 : bool),
       new_sent startup after_first = [(text1, true)]
       /\ includes text1 "6,000,000.00" = true /\ includes text1 "6M" = true
       /\ new_sent after_first after_second = []
       /\ new_sent after_second after_third = [(text3, ok3)]
       /\ includes text3 "7,250,000.00" = true /\ includes text3 "7.25M" = true.
Proof.
  assert (H6 : fetch_outcome fetch_6000000 = Sample 6000000%float 0%float)
    by (vm_compute; reflexivity).
  assert (H7 : fetch_outcome fetch_7250000 = Sample 7250000%float 0%float)
    by (vm_compute; reflexivity).
  assert (Hs : gt 0%float (shortThreshold (vars startup)) = false)
    by (vm_compute; reflexivity).
  split; [reflexivity|]. split; [reflexivity|]. split; [exact H6|].
  split; [exact H7|]. split; [exact Hs|]. split; [reflexivity|].
  exact (three_cycle_scenario startup fetch_6000000 fetch_6000000 fetch_7250000
           0 0 0 _ _ _ eq_refl eq_refl H6 H6 H7 Hs Hs Hs eq_refl).
Defined.

(** ** Retries *)

(** What a cycle adds to the pending timeouts. *)
Lemma cycle_timeouts (io : Network) (n : nat) (w : World) :
  timeouts (rt (exec (cycle io n) w))
  = timeouts (rt w)
    ++ (if transient (fetch_outcome io) && (n <? 3)%nat
        then [(CheckLiquidations (n + 1), 5000%float)] else []).
Proof.
  unfold exec. destruct (fetch_outcome io) as [l s|l e| |e] eqn:H.
  - rewrite (uninterrupted_sample _ _ _ _ _ H). cbn [snd transient andb].
    destruct (check_side_runtime Short io (check_side Long io (store_sample l s w)))
      as (_ & _ & ->).
    destruct (check_side_runtime Long io (store_sample l s w)) as (_ & _ & ->).
    now rewrite app_nil_r.
  - rewrite (uninterrupted_long_only _ _ _ _ _ H). cbn [snd].
    destruct (transient (LongOnly l e) && (n <? 3)%nat); [reflexivity|].
    cbn [store_long rt timeouts]. now rewrite app_nil_r.
  - rewrite (uninterrupted_no_sample _ _ _ H). cbn [snd transient andb].
    now rewrite app_nil_r.
  - rewrite (uninterrupted_failed _ _ _ _ H). cbn [snd].
    destruct (transient (Failed e) && (n <? 3)%nat); [reflexivity|].
    now rewrite app_nil_r.
Qed.

(** A cycle whose fetch failed touches nothing but the timer queue. *)
Lemma failed_cycle_state (io : Network) (n : nat) (w : World) (e : js_error) :
  fetch_outcome io = Failed e ->
  let w' := exec (cycle io n) w in
  vars w' = vars w
  /\ sent (rt w') = sent (rt w)
  /\ intervals (rt w') = intervals (rt w)
  /\ next_timer (rt w')
     = (next_timer (rt w)
        + (if transient (Failed e) && (n <? 3)%nat then 1 else 0))%nat.
Proof.
  intros H. cbn zeta. unfold exec.
  rewrite (uninterrupted_failed _ _ _ _ H). cbn [snd].
  destruct (transient (Failed e) && (n <? 3)%nat); cbn; repeat split; lia.
Qed.

(** ** Cycles as runs of the process

    A cycle that nothing interrupts is one of the runs of the process:
    the call, then the settlements of its promises one after the other. *)

Lemma nth_error_snoc {A} (l : list A) (x : A) : nth_error (l ++ [x]) (length l) = Some x.
Proof. rewrite nth_error_app2 by lia. now rewrite Nat.sub_diag. Qed.

Lemma remove_nth_snoc {A} (l : list A) (x : A) : remove_nth (length l) (l ++ [x]) = l.
Proof.
  unfold remove_nth. rewrite firstn_app, Nat.sub_diag, firstn_all. cbn [firstn].
  rewrite skipn_all2 by (rewrite length_app; cbn; lia). now rewrite !app_nil_r.
Qed.

Lemma run_settlements (io : Network) (a : async unit) (others : list suspended) :
  run (settlements io (length others) a) (park a others)
  = mkProcess (snd (uninterrupted io a)) others.
Proof.
  induction a as [c w|p w k IH]; [reflexivity|].
  cbn [settlements uninterrupted park run fold_left step world pending].
  rewrite nth_error_snoc, remove_nth_snoc. cbn [waits_for resume].
  apply IH.
Qed.

(** A call begins by waiting for the request, and has touched nothing
    then. *)
Lemma call_waits_for_request (n : nat) (w : World) :
  exists k, checkLiquidations n w = Await HttpGet w k.
Proof. eexists. reflexivity. Qed.

(** A tick of a live timer, then the settlements of the call it made. *)
Lemma tick_runs_cycle (io : Network) (id : timer_id) (P : Process) :
  is_Some (intervals (rt (world P)) !! id) ->
  run (IntervalTick id
         :: settlements io (length (pending P)) (checkLiquidations 0 (world P))) P
  = mkProcess (exec (cycle io 0) (world P)) (pending P).
Proof.
  intros [p Hp]. cbn [run fold_left step]. rewrite Hp.
  exact (run_settlements io (checkLiquidations 0 (world P)) (pending P)).
Qed.

(** The same for a retry that fires. *)
Lemma timeout_runs_cycle (io : Network) (k n : nat) (P : Process) (w' : World) :
  fire_timeout k (world P) = Some (CheckLiquidations n, w') ->
  run (TimeoutFires k :: settlements io (length (pending P)) (checkLiquidations n w')) P
  = mkProcess (exec (cycle io n) w') (pending P).
Proof.
  intros H. cbn [run fold_left step]. rewrite H.
  exact (run_settlements io (checkLiquidations n w') (pending P)).
Qed.

(** A cycle without a sample is over when its request has settled. *)
Lemma settlements_without_sample (io : Network) (j n : nat) (w : World) :
  (forall l s, fetch_outcome io <> Sample l s) ->
  settlements io j (checkLiquidations n w) = [Settles j (http_get io)].
Proof.
  unfold fetch_outcome, read_candle, candle_field, checkLiquidations.
  cbn [and_then or_catch settlements answer settle await try_catch bind_async].
  intros Hno.
  destruct (http_get io) as [body|error]; run_async; [|now destruct (_ && _)].
  destruct (get_property _ "length") as [e|len]; run_async; [now destruct (_ && _)|].
  destruct (ToNumber len) as [e|x]; run_async; [now destruct (_ && _)|].
  destruct (gt x 0%float); run_async; [|reflexivity].
  destruct (get_property _ "0") as [e|c]; run_async; [now destruct (_ && _)|].
  destruct (get_property c "longLiquidationUsd") as [e|long]; run_async;
    [now destruct (_ && _)|].
  destruct (ToString (or_else long _)) as [e|lt]; run_async; [now destruct (_ && _)|].
  destruct (get_property c "shortLiquidationUsd") as [e|short]; run_async;
    [now destruct (_ && _)|].
  destruct (ToString (or_else short _)) as [e|st]; run_async; [now destruct (_ && _)|].
  now destruct (Hno (parseFloat lt) (parseFloat st)).
Qed.

Lemma transient_has_no_sample (io : Network) :
  transient (fetch_outcome io) = true -> forall l s, fetch_outcome io <> Sample l s.
Proof. intros H l s Hs. rewrite Hs in H. discriminate H. Qed.

Lemma tick_without_sample (io : Network) (id : timer_id) (P : Process) :
  is_Some (intervals (rt (world P)) !! id) ->
  (forall l s, fetch_outcome io <> Sample l s) ->
  run [IntervalTick id; Settles (length (pending P)) (http_get io)] P
  = mkProcess (exec (cycle io 0) (world P)) (pending P).
Proof.
  intros Hid Hno. rewrite <- (tick_runs_cycle io id P Hid).
  now rewrite (settlements_without_sample io _ 0 (world P) Hno).
Qed.

Lemma timeout_without_sample (io : Network) (k n : nat) (P : Process) (w' : World) :
  fire_timeout k (world P) = Some (CheckLiquidations n, w') ->
  (forall l s, fetch_outcome io <> Sample l s) ->
  run [TimeoutFires k; Settles (length (pending P)) (http_get io)] P
  = mkProcess (exec (cycle io n) w') (pending P).
Proof.
  intros Hf Hno. rewrite <- (timeout_runs_cycle io k n P w' Hf).
  now rewrite (settlements_without_sample io _ n w' Hno).
Qed.

Lemma no_timeout_to_fire (k : nat) (s : settlement) (P : Process) :
  fire_timeout k (world P) = None ->
  run [TimeoutFires k; Settles (length (pending P)) s] P = P.
Proof.
  intros Hf. cbn [run fold_left step]. rewrite Hf.
  now rewrite (proj2 (nth_error_None (pending P) (length (pending P))) (le_n _)).
Qed.

(** The state after [k] transient failures in a row, the first on a tick
    of the periodic timer and the others on its retries: whatever [k],
    at most three retries have been queued, and after the fourth failure
    none is pending.  The calls that were waiting are as they were. *)
Lemma failure_run (ios : list Network) (io0 : Network) (id : timer_id) (P : Process) :
  timeouts (rt (world P)) = [] ->
  is_Some (intervals (rt (world P)) !! id) ->
  Forall (fun io => transient (fetch_outcome io) = true) (io0 :: ios) ->
  let k := S (length ios) in
  let P' := run (failure_events id (length (pending P)) io0 ios) P in
  vars (world P') = vars (world P)
  /\ sent (rt (world P')) = sent (rt (world P))
  /\ intervals (rt (world P')) = intervals (rt (world P))
  /\ next_timer (rt (world P')) = (next_timer (rt (world P)) + Nat.min k 3)%nat
  /\ timeouts (rt (world P'))
     = (if (k <=? 3)%nat then [(CheckLiquidations k, 5000%float)] else [])
  /\ pending P' = pending P.
Proof.
  intros Hq Hid Hall. cbn zeta.
  induction ios as [|io ios IH] using rev_ind.
  - apply Forall_inv in Hall. unfold failure_events. cbn [flat_map app length].
    rewrite (tick_without_sample io0 id P Hid (transient_has_no_sample io0 Hall)).
    cbn [world pending].
    destruct (transient_is_rejected io0 Hall) as (e & H & _). rewrite H in Hall.
    destruct (failed_cycle_state io0 0 (world P) e H) as (Hv & Hs & Hi & Hn).
    cbn zeta in *. pose proof (cycle_timeouts io0 0 (world P)) as Ht.
    rewrite H, Hall, Hq in Ht. rewrite Hall in Hn. cbn in Ht, Hn.
    repeat split; assumption.
  - assert (Hall' : Forall (fun io => transient (fetch_outcome io) = true) (io0 :: ios)).
    { constructor; [now apply Forall_inv in Hall|].
      apply Forall_inv_tail in Hall. now apply Forall_app in Hall as [? _]. }
    assert (Hio : transient (fetch_outcome io) = true).
    { apply Forall_inv_tail in Hall. apply Forall_app in Hall as [_ Hl].
      now apply Forall_inv in Hl. }
    destruct (IH Hall') as (Hv & Hs & Hi & Hn & Ht & Hp). clear IH.
    unfold failure_events in *. rewrite flat_map_app, app_assoc.
    unfold run in *. rewrite fold_left_app.
    set (P1 := fold_left _ (_ ++ flat_map _ ios) P) in *.
    cbn [flat_map app]. rewrite length_app. cbn [length].
    replace (length ios + 1)%nat with (S (length ios)) by lia.
    rewrite <- Hp.
    change (fold_left (fun P ev => step ev P)
              [TimeoutFires 0; Settles (length (pending P1)) (http_get io)] P1)
      with (run [TimeoutFires 0; Settles (length (pending P1)) (http_get io)] P1).
    destruct (S (length ios) <=? 3)%nat eqn:Hk.
    + apply Nat.leb_le in Hk.
      assert (Hf : fire_timeout 0 (world P1)
                   = Some (CheckLiquidations (S (length ios)),
                           mkWorld (vars (world P1))
                             (mkRuntime (next_timer (rt (world P1)))
                                (intervals (rt (world P1))) [] (sent (rt (world P1)))))).
      { unfold fire_timeout. rewrite Ht. reflexivity. }
      rewrite (timeout_without_sample io 0 _ P1 _ Hf (transient_has_no_sample io Hio)).
      cbn [world pending]. set (w2 := mkWorld _ _).
      destruct (transient_is_rejected io Hio) as (e & H & _). rewrite H in Hio.
      destruct (failed_cycle_state io (S (length ios)) w2 e H) as (Hv2 & Hs2 & Hi2 & Hn2).
      cbn zeta in *. pose proof (cycle_timeouts io (S (length ios)) w2) as Ht2.
      rewrite H, Hio in Ht2. rewrite Hio in Hn2.
      cbn [w2 vars rt sent intervals next_timer timeouts app andb] in *.
      rewrite Hv2, Hs2, Hi2, Hn2, Ht2, Hn.
      repeat split; try assumption.
      * destruct (S (length ios) <? 3)%nat eqn:Hlt;
          [apply Nat.ltb_lt in Hlt | apply Nat.ltb_ge in Hlt]; lia.
      * destruct (S (length ios) <? 3)%nat eqn:Hlt;
          [apply Nat.ltb_lt in Hlt | apply Nat.ltb_ge in Hlt].
        -- replace (S (S (length ios)) <=? 3)%nat with true
             by (symmetry; apply Nat.leb_le; lia).
           now replace (S (length ios) + 1)%nat with (S (S (length ios))) by lia.
        -- now replace (S (S (length ios)) <=? 3)%nat with false
             by (symmetry; apply Nat.leb_gt; lia).
    + apply Nat.leb_gt in Hk.
      assert (Hf : fire_timeout 0 (world P1) = None)
        by (unfold fire_timeout; now rewrite Ht).
      rewrite (no_timeout_to_fire 0 _ P1 Hf).
      repeat split; try assumption; [lia|].
      now replace (S (S (length ios)) <=? 3)%nat with false
        by (symmetry; apply Nat.leb_gt; lia).
Qed.

(** ** Failed and empty fetches *)

Lemma rejected_is_failed (io : Network) (e : js_error) :
  http_get io = Rejected e -> fetch_outcome io = Failed e.
Proof. unfold fetch_outcome. now intros ->. Qed.

(** A response whose first data point is [null] fails with a
    [TypeError], which has no [code]. *)
Lemma null_candle_is_failed :
  fetch_outcome (delivering (response (VArr [VNull]))) = Failed TypeError.
Proof. vm_compute. reflexivity. Qed.

Lemma empty_array_length :
  gt (of_Z (Z.of_nat (length (@nil value)))) 0%float = false.
Proof. vm_compute. reflexivity. Qed.

Lemma no_data_is_no_sample (io : Network) (body : value) :
  http_get io = Resolved body ->
  optional_property body "data" = VArr []
  \/ ToBoolean (optional_property body "data") = false ->
  fetch_outcome io = NoSample.
Proof.
  intros Hget Hdata. unfold fetch_outcome. rewrite Hget.
  assert (Hor : or_else (optional_property body "data") (VArr []) = VArr []).
  { unfold or_else. destruct Hdata as [->| ->]; reflexivity. }
  rewrite Hor. cbn [get_property String.eqb Ascii.eqb Bool.eqb ToNumber].
  now rewrite empty_array_length.
Qed.

(** The samples a cycle stores, and the messages it sends, come from the
    data point it has just fetched. *)
Lemma cycle_sample (io : Network) (n : nat) (w : World) (l s : number) :
  fetch_outcome io = Sample l s ->
  let w' := exec (cycle io n) w in
  lastLongLiq (vars w') = l
  /\ lastShortLiq (vars w') = s
  /\ Forall (fun a => fst a = alert_text Long l \/ fst a = alert_text Short s)
       (new_sent w w').
Proof.
  intros H. cbn zeta. split; [|split].
  - unfold exec. rewrite (uninterrupted_sample _ _ _ _ _ H). cbn [snd].
    destruct (check_side_frame Short io (check_side Long io (store_sample l s w)))
      as (_ & _ & _ & -> & _).
    now destruct (check_side_frame Long io (store_sample l s w))
      as (_ & _ & _ & -> & _).
  - unfold exec. rewrite (uninterrupted_sample _ _ _ _ _ H). cbn [snd].
    destruct (check_side_frame Short io (check_side Long io (store_sample l s w)))
      as (_ & _ & _ & _ & -> & _).
    now destruct (check_side_frame Long io (store_sample l s w))
      as (_ & _ & _ & _ & -> & _).
  - rewrite (cycle_new_sent_sides _ _ _ _ _ H). apply Forall_app. split.
    + destruct (cycle_attempts_cases Long io n w l s H) as [[_ [ok ->]]|[_ ->]];
        cbn zeta; constructor; [now left | constructor].
    + destruct (cycle_attempts_cases Short io n w l s H) as [[_ [ok ->]]|[_ ->]];
        cbn zeta; constructor; [now right | constructor].
Qed.

(** A data point whose short field cannot be converted leaves the long
    sample overwritten, alone: the error is thrown between the two
    assignments. *)
Lemma long_only_cycle_state (io : Network) (n : nat) (w : World)
    (l : number) (e : js_error) :
  fetch_outcome io = LongOnly l e ->
  exec (cycle io n) w = store_long l w.
Proof.
  intros H. unfold exec. rewrite (uninterrupted_long_only _ _ _ _ _ H). cbn [snd].
  destruct (fetch_errors io) as [He _]. rewrite (He l e H). reflexivity.
Qed.

(** A cycle that fails can still change a sample, on a response that
    cannot be read to its end.  The data point has a long field of 6,000,000 and a short field
    that throws when it is converted: the cycle ends in its [catch]
    block, as for any malformed response, and yet [lastLongLiq] has been
    overwritten, and [lastShortLiq] has not. *)
Lemma unconvertible_short_field_stores_long_alone :
  let w' := exec (cycle fetch_short_unconvertible 0) startup in
  fetch_outcome fetch_short_unconvertible = LongOnly 6000000%float TypeError
  /\ lastLongLiq (vars startup) = 0%float
  /\ lastLongLiq (vars w') = 6000000%float
  /\ lastShortLiq (vars w') = lastShortLiq (vars startup)
  /\ sent (rt w') = []
  /\ timeouts (rt w') = [].
Proof. vm_compute. repeat constructor. Qed.

(** C6 (amended). A cycle whose request fails, by a transient error or
    any other, or whose response cannot be read up to its long field,
    leaves the whole monitor state as it was: the samples keep their
    values, the alert memory is untouched and nothing is dispatched.  The
    samples are overwritten only by a cycle whose request succeeded, the
    long one first: both by a cycle that could read its data point, and
    before the alert decision, which is taken on the new values; the long
    one alone, with nothing dispatched and no retry queued, by a cycle
    whose short field throws when it is converted; none by a cycle that
    found no data point. *)
Theorem failed_fetch_keeps_state (io : Network) (n : nat) (w : World) :
  let w' := exec (cycle io n) w in
  (forall e, http_get io = Rejected e \/ fetch_outcome io = Failed e ->
     vars w' = vars w /\ new_sent w w' = [])
  /\ (forall l s, fetch_outcome io = Sample l s ->
        lastLongLiq (vars w') = l
        /\ lastShortLiq (vars w') = s
        /\ Forall (fun a => fst a = alert_text Long l \/ fst a = alert_text Short s)
             (new_sent w w'))
  /\ (forall l e, fetch_outcome io = LongOnly l e ->
        vars w' = set_lastLongLiq l (vars w) /\ rt w' = rt w)
  /\ (fetch_outcome io = NoSample -> w' = w).
Proof.
  cbn zeta. split; [|split; [|split]].
  - intros e He.
    assert (H : fetch_outcome io = Failed e)
      by (destruct He as [He|He]; [now apply rejected_is_failed | exact He]).
    destruct (failed_cycle_state io n w e H) as (Hv & Hs & _). cbn zeta in *.
    split; [exact Hv|]. apply new_sent_app. now rewrite app_nil_r.
  - intros l s H. exact (cycle_sample io n w l s H).
  - intros l e H. now rewrite (long_only_cycle_state io n w l e H).
  - intros H. unfold exec. now rewrite (uninterrupted_no_sample _ _ _ H).
Qed.

Lemma failed_fetch_keeps_state_witness :
  http_get (failing (Some "ERR_BAD_REQUEST"))
  = Rejected {| code := Some "ERR_BAD_REQUEST" |}
  /\ vars (exec (cycle (failing (Some "ERR_BAD_REQUEST")) 0) after_first)
     = vars after_first
  /\ new_sent after_first
       (exec (cycle (failing (Some "ERR_BAD_REQUEST")) 0) after_first)
     = [].
Proof.
  split; [reflexivity|].
  destruct (failed_fetch_keeps_state (failing (Some "ERR_BAD_REQUEST")) 0 after_first)
    as (H & _).
  apply (H {| code := Some "ERR_BAD_REQUEST" |}). left. reflexivity.
Defined.

Lemma no_data_is_noop (io : Network) (n : nat) (w : World) (body : value) :
  http_get io = Resolved body ->
  optional_property body "data" = VArr []
  \/ ToBoolean (optional_property body "data") = false ->
  cycle io n w = (Normal tt, w).
Proof.
  intros Hget Hdata. apply uninterrupted_no_sample.
  exact (no_data_is_no_sample io body Hget Hdata).
Qed.

(** C9. When the request succeeds and the [data] of the response is the
    empty array, or absent, the cycle changes nothing at all: samples and
    alert memory stay, nothing is dispatched and no retry is queued. *)
Theorem empty_data_is_noop (io : Network) (n : nat) (w : World) (body : value) :
  http_get io = Resolved body ->
  optional_property body "data" = VArr []
  \/ optional_property body "data" = VUndefined ->
  cycle io n w = (Normal tt, w).
Proof.
  intros Hget Hdata. apply (no_data_is_noop io n w body Hget).
  destruct Hdata as [H|H]; [now left|right]. now rewrite H.
Qed.

Lemma empty_data_is_noop_witness :
  http_get (delivering (response (VArr []))) = Resolved (response (VArr []))
  /\ optional_property (response (VArr [])) "data" = VArr []
  /\ cycle (delivering (response (VArr []))) 2 after_first
     = (Normal tt, after_first).
Proof.
  assert (H : optional_property (response (VArr [])) "data" = VArr [])
    by (vm_compute; reflexivity).
  split; [reflexivity|]. split; [exact H|].
  apply (empty_data_is_noop (delivering (response (VArr []))) 2 after_first
           (response (VArr [])) eq_refl).
  now left.
Defined.

(** A body with no [data] field at all, and no body, are no-ops too. *)
Lemma absent_data_is_noop (n : nat) (w : World) :
  cycle (delivering (VObj (<["code" := VStr "0"]> ∅))) n w = (Normal tt, w)
  /\ cycle (delivering VUndefined) n w = (Normal tt, w).
Proof.
  split.
  - apply (no_data_is_noop (delivering (VObj (<["code" := VStr "0"]> ∅))) n w
             (VObj (<["code" := VStr "0"]> ∅)) eq_refl).
    right. vm_compute. reflexivity.
  - apply (no_data_is_noop (delivering VUndefined) n w VUndefined eq_refl).
    right. reflexivity.
Qed.

(** ** The scheduler *)

Lemma schedule_result (w : World) :
  exec scheduleCheckLiquidations w
  = mkWorld (set_intervalId (Some (next_timer (rt w))) (vars w))
      (mkRuntime (S (next_timer (rt w)))
         (<[next_timer (rt w) := pollingIntervalMs (vars w)]> (cleared w))
         (timeouts (rt w)) (sent (rt w))).
Proof.
  unfold exec, scheduleCheckLiquidations, cleared, bind, read, assign, skip, ret.
  cbn [vars rt]. destruct (intervalId (vars w)); reflexivity.
Qed.

Lemma cleared_tracked (w : World) : tracked w -> cleared w = ∅.
Proof.
  unfold cleared. intros [[-> ->]|(id & p & -> & ->)]; [reflexivity|].
  apply delete_singleton_eq.
Qed.

Lemma schedule_one_timer (w : World) :
  tracked w -> one_timer (exec scheduleCheckLiquidations w).
Proof.
  intros H. rewrite schedule_result. exists (next_timer (rt w)).
  cbn [vars rt intervals next_timer set_intervalId intervalId pollingIntervalMs].
  rewrite (cleared_tracked w H). split; [reflexivity|]. split; [|lia].
  apply insert_empty.
Qed.

Lemma cycle_timer_frame (io : Network) (n : nat) (w : World) :
  let w' := exec (cycle io n) w in
  intervalId (vars w') = intervalId (vars w)
  /\ pollingIntervalMs (vars w') = pollingIntervalMs (vars w)
  /\ intervals (rt w') = intervals (rt w)
  /\ (next_timer (rt w) <= next_timer (rt w'))%nat.
Proof.
  cbn zeta. destruct (fetch_outcome io) as [l s|l e| |e] eqn:H;
    [| rewrite (long_only_cycle_state io n w l e H); now repeat split | |];
    unfold exec.
  - rewrite (uninterrupted_sample _ _ _ _ _ H). cbn [snd].
    destruct (check_side_frame Short io (check_side Long io (store_sample l s w)))
      as (_ & _ & -> & _ & _ & -> & _).
    destruct (check_side_frame Long io (store_sample l s w))
      as (_ & _ & -> & _ & _ & -> & _).
    destruct (check_side_runtime Short io (check_side Long io (store_sample l s w)))
      as (-> & -> & _).
    destruct (check_side_runtime Long io (store_sample l s w)) as (-> & -> & _).
    now repeat split.
  - rewrite (uninterrupted_no_sample _ _ _ H). now repeat split.
  - destruct (failed_cycle_state io n w e H) as (Hv & _ & Hi & Hn).
    cbn zeta in Hv, Hi, Hn. unfold exec in Hv, Hi, Hn.
    rewrite Hv, Hi, Hn. repeat split. lia.
Qed.

Lemma one_timer_frame (w w' : World) :
  intervalId (vars w') = intervalId (vars w) ->
  pollingIntervalMs (vars w') = pollingIntervalMs (vars w) ->
  intervals (rt w') = intervals (rt w) ->
  (next_timer (rt w) <= next_timer (rt w'))%nat ->
  one_timer w -> one_timer w'.
Proof.
  intros H1 H2 H3 H4 (id & Hid & Hi & Hlt). exists id.
  rewrite H1, H2, H3. repeat split; try assumption. lia.
Qed.

(** ** The control endpoint *)

Lemma post_set_params_result (body : gmap string value) (w : World) :
  post_set_params body w
  = match read_params body with
    | inl error => (Thrown error, w)
    | inr (lt, st, pi) =>
        (Normal (Redirect "/"),
         if accepted_interval pi then
           exec scheduleCheckLiquidations
             (mkWorld
                (set_pollingIntervalMs (PrimFloat.mul pi 1000%float)
                   (with_thresholds lt st (vars w)))
                (rt w))
         else mkWorld (with_thresholds lt st (vars w)) (rt w))
    end.
Proof.
  unfold post_set_params, read_params, with_thresholds, accepted_interval.
  destruct w as [g r]. unfold bind at 1.
  destruct (body_field body "longThreshold") as [e|lt]; [reflexivity|].
  cbn [lift ret]. unfold bind at 1.
  destruct (body_field body "shortThreshold") as [e|st]; [reflexivity|].
  cbn [lift ret]. unfold bind at 1.
  destruct (body_field body "pollInterval") as [e|pi]; [reflexivity|].
  cbn [lift ret]. unfold bind at 1 2 3.
  destruct (isNaN lt); destruct (isNaN st);
    cbn [negb assign skip ret vars rt];
    (destruct (negb (isNaN pi) && gt pi 0%float); [|reflexivity]);
    unfold bind at 1; cbn [assign vars rt];
    unfold exec;
    destruct (scheduleCheckLiquidations _) as [[[]|e] w'] eqn:Hs;
    try reflexivity.
  all: exfalso; revert Hs;
    unfold scheduleCheckLiquidations, bind, read, assign, skip, ret, setInterval,
      clearInterval; cbn [vars rt intervalId];
    destruct (intervalId _); discriminate.
Qed.

Lemma with_thresholds_fields (lt st : number) (g : Globals) :
  let g' := with_thresholds lt st g in
  longThreshold g' = (if isNaN lt then longThreshold g else lt)
  /\ shortThreshold g' = (if isNaN st then shortThreshold g else st)
  /\ pollingIntervalMs g' = pollingIntervalMs g
  /\ lastLongLiq g' = lastLongLiq g
  /\ lastShortLiq g' = lastShortLiq g
  /\ lastLongAlertValue g' = lastLongAlertValue g
  /\ lastShortAlertValue g' = lastShortAlertValue g
  /\ intervalId g' = intervalId g.
Proof.
  cbn zeta. unfold with_thresholds.
  destruct (isNaN lt); destruct (isNaN st); now repeat split.
Qed.





(** The endpoint on sample forms: thresholds and period replaced, what
    is not a positive number left out, white space of any kind skipped
    and the longest numeric prefix read. *)
Lemma set_params_examples :
  let w1 := exec (post_set_params
                    (form [("longThreshold", "7000000.5"); ("shortThreshold", "abc");
                           ("pollInterval", "30")])) startup in
  let w2 := exec (post_set_params
                    (form [("longThreshold", ""); ("pollInterval", "0")])) startup in
  let w3 := exec (post_set_params
                    (form [("longThreshold", String "194" (String "160" "42"));
                           ("shortThreshold", " 12e3 USD")])) startup in
  (longThreshold (vars w1) = 7000000.5%float
   /\ shortThreshold (vars w1) = 10000000%float
   /\ pollingIntervalMs (vars w1) = 30000%float
   /\ map_to_list (intervals (rt w1)) = [(1%nat, 30000%float)])
  /\ w2 = startup
  /\ longThreshold (vars w3) = 42%float
  /\ shortThreshold (vars w3) = 12000%float.
Proof. vm_compute. repeat constructor. Qed.

(** ** The control endpoint leaves samples and memory alone *)

Lemma set_params_frame (body : gmap string value) (w : World) :
  let w' := exec (post_set_params body) w in
  lastLongLiq (vars w') = lastLongLiq (vars w)
  /\ lastShortLiq (vars w') = lastShortLiq (vars w)
  /\ lastLongAlertValue (vars w') = lastLongAlertValue (vars w)
  /\ lastShortAlertValue (vars w') = lastShortAlertValue (vars w)
  /\ sent (rt w') = sent (rt w)
  /\ timeouts (rt w') = timeouts (rt w).
Proof.
  cbn zeta. unfold exec. rewrite (post_set_params_result body w).
  destruct (read_params body) as [e|[[lt st] pi]]; [now repeat split|].
  cbn [snd].
  destruct (with_thresholds_fields lt st (vars w))
    as (_ & _ & _ & H1 & H2 & H3 & H4 & _). cbn zeta in *.
  destruct (accepted_interval pi).
  - rewrite schedule_result. cbn. now repeat split.
  - cbn. now repeat split.
Qed.

Lemma set_params_memory (body : gmap string value) (w : World) (sd : side) :
  last_alerted sd (vars (exec (post_set_params body) w)) = last_alerted sd (vars w).
Proof.
  destruct (set_params_frame body w) as (_ & _ & H3 & H4 & _). cbn zeta in *.
  now destruct sd.
Qed.

(** C10. [POST /set-params] never changes the samples or the alert
    memory, whatever the body: only the two thresholds and the polling
    period (with the timer) can change.  So the memory survives a change
    of threshold: a value that is the last alerted one of a side is not
    dispatched again by the next cycle under the new thresholds. *)
Theorem set_params_keeps_memory (body : gmap string value) (w : World) :
  let w' := exec (post_set_params body) w in
  lastLongLiq (vars w') = lastLongLiq (vars w)
  /\ lastShortLiq (vars w') = lastShortLiq (vars w)
  /\ lastLongAlertValue (vars w') = lastLongAlertValue (vars w)
  /\ lastShortAlertValue (vars w') = lastShortAlertValue (vars w)
  /\ sent (rt w') = sent (rt w)
  /\ timeouts (rt w') = timeouts (rt w)
  /\ (forall sd io n l s,
        fetch_outcome io = Sample l s ->
        last_alerted sd (vars w) = Some (pick sd l s) ->
        attempts sd w' (exec (cycle io n) w') = []).
Proof.
  cbn zeta.
  destruct (set_params_frame body w) as (H1 & H2 & H3 & H4 & H5 & H6). cbn zeta in *.
  repeat (split; [assumption|]).
  intros sd io n l s H Hlast.
  destruct (cycle_attempts_cases sd io n (exec (post_set_params body) w) l s H)
    as [[Ha _]|[_ Hs]]; cbn zeta in *; [|exact Hs].
  exfalso. rewrite set_params_memory, Hlast in Ha. unfold shouldAlert in Ha.
  apply andb_true_iff in Ha as [Hgt Hnew]. cbn [null_or_differs] in Hnew.
  rewrite (gt_not_differs _ _ Hgt) in Hnew. discriminate Hnew.
Qed.

Lemma set_params_keeps_memory_witness :
  fetch_outcome fetch_6000000 = Sample 6000000%float 0%float
  /\ last_alerted Long (vars after_first) = Some 6000000%float
  /\ longThreshold (vars (exec (post_set_params (form [("longThreshold", "1000")]))
                            after_first)) = 1000%float
  /\ attempts Long
       (exec (post_set_params (form [("longThreshold", "1000")])) after_first)
       (exec (cycle fetch_6000000 0)
          (exec (post_set_params (form [("longThreshold", "1000")])) after_first))
     = [].
Proof.
  assert (H1 : fetch_outcome fetch_6000000 = Sample 6000000%float 0%float)
    by (vm_compute; reflexivity).
  assert (H2 : last_alerted Long (vars after_first) = Some 6000000%float)
    by (vm_compute; reflexivity).
  split; [exact H1|]. split; [exact H2|]. split; [vm_compute; reflexivity|].
  destruct (set_params_keeps_memory (form [("longThreshold", "1000")]) after_first)
    as (_ & _ & _ & _ & _ & _ & H).
  exact (H Long fetch_6000000 0%nat _ _ H1 H2).
Defined.

(** ** The stretches of a call

    A call of [checkLiquidations], stretch by stretch, whatever the
    settlements and whatever the event loop ran in between. *)

Lemma checkLiquidations_follows (n : nat) (w : World) :
  checkLiquidations n w = Await HttpGet w (continuation (checkLiquidations n w))
  /\ follows stretch HttpGet (continuation (checkLiquidations n w)).
Proof.
  split; [reflexivity|].
  unfold checkLiquidations.
  cbn [continuation try_catch bind_async await and_then or_catch].
  apply follows_intro.
  - intros s w0 c w' H. destruct w0 as [g r]. split_in H.
    all: try discriminate H. all: injection H as <- <-; reflexivity.
  - intros s w0 c w' H. destruct w0 as [g r]. split_in H.
    all: try discriminate H. all: injection H as <- <-. all: stretch_after_fetch.
  - intros s w0 p' w' k' H. destruct w0 as [g r]. split_in H.
    all: try discriminate H. all: injection H as <- <- <-. all: stretch_after_fetch.
  - intros s w0 p' w' k' H. destruct w0 as [g r]. split_in H.
    all: try discriminate H. all: injection H as <- <- <-.
    all: first [follow_message Short | follow_message Long; follow_message Short].
Qed.

(** ** The states the process reaches

    Every call that waits in a reachable state is a call of
    [checkLiquidations], so a property of the world that survives a
    request, the firing of a timeout and every stretch of such a call
    holds in every state the process reaches. *)

Lemma follows_done (S : request -> settlement -> World -> World -> Prop)
    (p : request) (k : settlement -> World -> async unit)
    (s : settlement) (w : World) (c : completion unit) (w' : World) :
  follows S p k -> k s w = Done c w' -> S p s w w' /\ c = Normal tt.
Proof. intros [p0 k0 H1 H2 _ _] H. split; [exact (H2 _ _ _ _ H) | exact (H1 _ _ _ _ H)]. Qed.

Lemma follows_await (S : request -> settlement -> World -> World -> Prop)
    (p : request) (k : settlement -> World -> async unit)
    (s : settlement) (w : World) (p' : request) (w' : World)
    (k' : settlement -> World -> async unit) :
  follows S p k -> k s w = Await p' w' k' -> S p s w w' /\ follows S p' k'.
Proof. intros [p0 k0 _ _ H3 H4] H. split; [exact (H3 _ _ _ _ _ H) | exact (H4 _ _ _ _ _ H)]. Qed.

Lemma Forall_remove_nth {A} (Q : A -> Prop) (j : nat) (l : list A) :
  Forall Q l -> Forall Q (remove_nth j l).
Proof.
  intros H. unfold remove_nth. apply Forall_app. split.
  - rewrite <- (firstn_skipn j l) in H. now apply Forall_app in H as [H _].
  - rewrite <- (firstn_skipn (S j) l) in H. now apply Forall_app in H as [_ H].
Qed.

Lemma reachable_worlds (I : World -> Prop) :
  I startup ->
  (forall body w, I w -> I (exec (post_set_params body) w)) ->
  (forall k w t w', I w -> fire_timeout k w = Some (t, w') -> I w') ->
  (forall p s w w', I w -> stretch p s (settle p s w) w' -> I w') ->
  forall P, reachable P ->
    I (world P)
    /\ Forall (fun call => follows stretch (waits_for call) (resume call)) (pending P).
Proof.
  intros Hstart Hpost Hfire Hstretch P HP.
  induction HP as [|ev P _ [IH1 IH2]]; [split; [exact Hstart | constructor]|].
  destruct ev as [id|k|body|j s]; cbn [step].
  - destruct (intervals (rt (world P)) !! id); [|now split].
    destruct (checkLiquidations_follows 0 (world P)) as [-> Hf]. cbn [park world pending].
    split; [exact IH1|]. apply Forall_app. split; [exact IH2|].
    constructor; [exact Hf | constructor].
  - destruct (fire_timeout k (world P)) as [[[n] w']|] eqn:Hk; [|now split].
    destruct (checkLiquidations_follows n w') as [-> Hf]. cbn [park world pending].
    split; [exact (Hfire _ _ _ _ IH1 Hk)|]. apply Forall_app. split; [exact IH2|].
    constructor; [exact Hf | constructor].
  - cbn [world pending]. split; [now apply Hpost | exact IH2].
  - destruct (nth_error (pending P) j) as [call|] eqn:Hj; [|now split].
    assert (Hcall : follows stretch (waits_for call) (resume call))
      by exact (proj1 (List.Forall_forall _ _) IH2 _ (nth_error_In _ _ Hj)).
    pose proof (Forall_remove_nth _ j _ IH2) as Hrest.
    destruct (resume call s (settle (waits_for call) s (world P)))
      as [c w'|p' w' k'] eqn:Hr; cbn [park world pending].
    + destruct (follows_done _ _ _ _ _ _ _ Hcall Hr) as [Hs _].
      split; [exact (Hstretch _ _ _ _ IH1 Hs) | exact Hrest].
    + destruct (follows_await _ _ _ _ _ _ _ _ Hcall Hr) as [Hs Hf].
      split; [exact (Hstretch _ _ _ _ IH1 Hs)|].
      apply Forall_app. split; [exact Hrest|]. constructor; [exact Hf | constructor].
Qed.

(** What no stretch of a call touches: thresholds, period and timer
    handle, and the periodic timers; and what it adds to the pending
    timeouts. *)
Lemma stretch_frame (p : request) (s : settlement) (w w' : World) :
  stretch p s (settle p s w) w' ->
  longThreshold (vars w') = longThreshold (vars w)
  /\ shortThreshold (vars w') = shortThreshold (vars w)
  /\ pollingIntervalMs (vars w') = pollingIntervalMs (vars w)
  /\ intervalId (vars w') = intervalId (vars w)
  /\ intervals (rt w') = intervals (rt w)
  /\ (next_timer (rt w) <= next_timer (rt w'))%nat
  /\ exists queued, timeouts (rt w') = timeouts (rt w) ++ queued
                    /\ Forall bounded_retry queued.
Proof.
  destruct p as [|text]; cbn [stretch settle].
  - intros (H1 & H2 & H3 & H4 & _ & _ & H7 & _ & H9 & H10). now repeat split.
  - intros (sd & v & _ & ->). cbn [vars rt intervals next_timer timeouts].
    assert (Hq : exists queued, timeouts (rt w) = timeouts (rt w) ++ queued
                                /\ Forall bounded_retry queued)
      by (exists []; split; [now rewrite app_nil_r | constructor]).
    destruct (resolved s); [destruct sd|]; now repeat split.
Qed.

(** ** One periodic timer *)

Lemma one_timer_tracked (w : World) : one_timer w -> tracked w.
Proof. intros (id & H1 & H2 & _). right. now exists id, (pollingIntervalMs (vars w)). Qed.

Lemma fire_timeout_frame (k : nat) (w w' : World) (t : task) :
  fire_timeout k w = Some (t, w') ->
  vars w' = vars w
  /\ intervals (rt w') = intervals (rt w)
  /\ next_timer (rt w') = next_timer (rt w)
  /\ sent (rt w') = sent (rt w).
Proof.
  unfold fire_timeout. destruct (nth_error _ k) as [[t' d]|]; [|discriminate].
  intros [= _ <-]. now repeat split.
Qed.

Lemma reachable_one_timer (P : Process) : reachable P -> one_timer (world P).
Proof.
  intros HP. apply (reachable_worlds one_timer); [| | | |exact HP].
  - apply schedule_one_timer. now left.
  - intros body w H. unfold exec. rewrite (post_set_params_result body w).
    destruct (read_params body) as [e|[[lt st] pi]]; [exact H|]. cbn [snd].
    destruct (with_thresholds_fields lt st (vars w))
      as (_ & _ & Hp & _ & _ & _ & _ & Hid). cbn zeta in *.
    destruct (accepted_interval pi).
    + apply schedule_one_timer. destruct H as (id & H1 & H2 & _). right.
      exists id, (pollingIntervalMs (vars w)).
      cbn [vars rt intervalId set_pollingIntervalMs]. now rewrite Hid.
    + apply (one_timer_frame w); cbn [vars rt]; try assumption; reflexivity.
  - intros k w t w' H Hf.
    destruct (fire_timeout_frame _ _ _ _ Hf) as (F1 & F2 & F3 & _).
    apply (one_timer_frame w); try congruence. lia.
  - intros p s w w' H Hs.
    destruct (stretch_frame p s w w' Hs) as (_ & _ & F3 & F4 & F5 & F6 & _).
    exact (one_timer_frame _ _ F4 F3 F5 F6 H).
Qed.

Lemma schedule_monitor_state (w : World) :
  monitor_state (exec scheduleCheckLiquidations w) = monitor_state w
  /\ sent (rt (exec scheduleCheckLiquidations w)) = sent (rt w)
  /\ timeouts (rt (exec scheduleCheckLiquidations w)) = timeouts (rt w).
Proof. rewrite schedule_result. now repeat split. Qed.

(** C8. The scheduler keeps at most one periodic timer at all times:
    none before the first call, and in every state the process reaches
    exactly the one [intervalId] names, running at the current period.
    Each call of [scheduleCheckLiquidations] cancels the active timer
    before it installs the new one, so calling it twice leaves exactly one
    timer at that period, and thresholds, samples and alert memory are
    what they were. *)
Theorem single_periodic_timer :
  intervals (rt initial_world) = ∅
  /\ (forall P, reachable P ->
        one_timer (world P) /\ size (intervals (rt (world P))) = 1%nat)
  /\ (forall P, reachable P ->
        let w := world P in
        let w1 := exec scheduleCheckLiquidations w in
        let w2 := exec scheduleCheckLiquidations w1 in
        cleared w = ∅
        /\ (forall old, intervalId (vars w) = Some old -> intervals (rt w1) !! old = None)
        /\ intervals (rt w1) = {[ next_timer (rt w) := pollingIntervalMs (vars w) ]}
        /\ intervals (rt w2) = {[ next_timer (rt w1) := pollingIntervalMs (vars w) ]}
        /\ size (intervals (rt w2)) = 1%nat
        /\ monitor_state w2 = monitor_state w
        /\ sent (rt w2) = sent (rt w)
        /\ timeouts (rt w2) = timeouts (rt w)).
Proof.
  split; [reflexivity|]. split.
  - intros P HP. pose proof (reachable_one_timer P HP) as H. split; [exact H|].
    destruct H as (id & _ & -> & _). apply map_size_singleton.
  - intros P HP. cbn zeta. pose proof (reachable_one_timer P HP) as H.
    set (w := world P) in *.
    pose proof (cleared_tracked w (one_timer_tracked w H)) as Hc.
    pose proof (schedule_one_timer w (one_timer_tracked w H)) as H1.
    pose proof (cleared_tracked _ (one_timer_tracked _ H1)) as Hc1.
    destruct (schedule_monitor_state w) as (M1 & S1 & T1).
    destruct (schedule_monitor_state (exec scheduleCheckLiquidations w))
      as (M2 & S2 & T2).
    assert (Hi1 : intervals (rt (exec scheduleCheckLiquidations w))
                  = {[ next_timer (rt w) := pollingIntervalMs (vars w) ]}).
    { rewrite schedule_result. cbn [rt intervals]. rewrite Hc. apply insert_empty. }
    assert (Hp1 : pollingIntervalMs (vars (exec scheduleCheckLiquidations w))
                  = pollingIntervalMs (vars w)).
    { rewrite schedule_result. reflexivity. }
    assert (Hi2 : intervals (rt (exec scheduleCheckLiquidations
                                   (exec scheduleCheckLiquidations w)))
                  = {[ next_timer (rt (exec scheduleCheckLiquidations w))
                       := pollingIntervalMs (vars w) ]}).
    { rewrite (schedule_result (exec scheduleCheckLiquidations w)).
      cbn [rt intervals]. rewrite Hc1, Hp1. apply insert_empty. }
    split; [exact Hc|]. split.
    { intros old Hold. rewrite Hi1. apply lookup_singleton_ne.
      destruct H as (id & Hid & _ & Hlt). rewrite Hid in Hold.
      injection Hold as <-. lia. }
    split; [exact Hi1|]. split; [exact Hi2|].
    split; [rewrite Hi2; apply map_size_singleton|].
    split; [congruence|]. split; congruence.
Qed.

Lemma single_periodic_timer_witness :
  reachable (run [PostSetParams (form [("pollInterval", "30")])] boot)
  /\ size (intervals
             (rt (world (run [PostSetParams (form [("pollInterval", "30")])] boot))))
     = 1%nat
  /\ intervals
       (rt (exec scheduleCheckLiquidations
              (exec scheduleCheckLiquidations
                 (world (run [PostSetParams (form [("pollInterval", "30")])] boot)))))
     = {[ next_timer
            (rt (exec scheduleCheckLiquidations
                   (world (run [PostSetParams (form [("pollInterval", "30")])] boot))))
          := pollingIntervalMs
               (vars (world (run [PostSetParams (form [("pollInterval", "30")])] boot))) ]}.
Proof.
  assert (Hr : reachable (run [PostSetParams (form [("pollInterval", "30")])] boot))
    by (apply reachable_step, reachable_boot).
  destruct single_periodic_timer as (_ & H1 & H2).
  split; [exact Hr|]. split; [exact (proj2 (H1 _ Hr))|].
  destruct (H2 _ Hr) as (_ & _ & _ & H & _). exact H.
Defined.

(** The timers of a sample run: one timer, renewed by each change of
    period, whatever cycles are under way. *)
Lemma timers_of_a_run :
  map_to_list (intervals (rt startup)) = [(0%nat, 60000%float)]
  /\ map_to_list
       (intervals
          (rt (world (run [PostSetParams (form [("pollInterval", "30")]);
                           IntervalTick 1;
                           Settles 0 (Resolved (response (VArr [candle "6000000" "0"])));
                           PostSetParams (form [("pollInterval", "2.5")]);
                           Settles 0 (Resolved VUndefined)] boot))))
     = [(2%nat, 2500%float)].
Proof. vm_compute. repeat constructor. Qed.

(** ** The retry bound *)

(** In every state the process reaches, the pending retries are at a
    retry count from 1 to 3: no cycle ever runs at a higher count. *)
Lemma cycle_bounded_retries (io : Network) (n : nat) (w : World) :
  Forall bounded_retry (timeouts (rt w)) ->
  Forall bounded_retry (timeouts (rt (exec (cycle io n) w))).
Proof.
  intros H. rewrite cycle_timeouts. apply Forall_app. split; [exact H|].
  destruct (transient (fetch_outcome io)); cbn [andb]; [|constructor].
  destruct (n <? 3)%nat eqn:Hlt; [|constructor].
  apply Nat.ltb_lt in Hlt. constructor; [|constructor].
  split; [lia | reflexivity].
Qed.

Lemma reachable_bounded_retries (P : Process) :
  reachable P -> Forall bounded_retry (timeouts (rt (world P))).
Proof.
  intros HP.
  apply (reachable_worlds (fun w => Forall bounded_retry (timeouts (rt w))));
    [| | | |exact HP].
  - constructor.
  - intros body w H. destruct (set_params_frame body w) as (_ & _ & _ & _ & _ & Ht).
    cbn zeta in Ht. now rewrite Ht.
  - intros k w t w' H. unfold fire_timeout.
    destruct (nth_error (timeouts (rt w)) k) as [[t' d]|]; [|discriminate].
    intros [= _ <-]. cbn [rt timeouts]. now apply Forall_remove_nth.
  - intros p s w w' H Hs.
    destruct (stretch_frame p s w w' Hs) as (_ & _ & _ & _ & _ & _ & q & -> & Hq).
    apply Forall_app. now split.
Qed.

(** C5. A cycle queues a retry exactly when its fetch failed with a
    transient error (connection reset or timed out) at a retry count
    below 3, and then queues exactly one, 5 seconds ahead, for the same
    cycle at the next retry count; hence a run of consecutive transient
    failures leads to at most 3 retries, and the failure of the third
    retry leaves nothing pending; and in no state the process reaches is
    a retry pending at a count above 3. *)
Theorem retries_are_bounded :
  (forall io n w,
     timeouts (rt (exec (cycle io n) w))
     = timeouts (rt w)
       ++ (if transient (fetch_outcome io) && (n <? 3)%nat
           then [(CheckLiquidations (n + 1), 5000%float)] else []))
  /\ (forall io n P,
        transient (fetch_outcome io) = true -> (n < 3)%nat ->
        let w := world P in
        step (TimeoutFires (length (timeouts (rt w))))
          (mkProcess (exec (cycle io n) w) (pending P))
        = park (checkLiquidations (n + 1)
                  (mkWorld (vars w)
                     (mkRuntime (S (next_timer (rt w))) (intervals (rt w))
                        (timeouts (rt w)) (sent (rt w)))))
            (pending P))
  /\ (forall ios io0 id P,
        timeouts (rt (world P)) = [] ->
        is_Some (intervals (rt (world P)) !! id) ->
        Forall (fun io => transient (fetch_outcome io) = true) (io0 :: ios) ->
        let P' := run (failure_events id (length (pending P)) io0 ios) P in
        next_timer (rt (world P'))
        = (next_timer (rt (world P)) + Nat.min (S (length ios)) 3)%nat
        /\ (3 <= length ios -> timeouts (rt (world P')) = [])%nat
        /\ vars (world P') = vars (world P)
        /\ sent (rt (world P')) = sent (rt (world P))
        /\ pending P' = pending P)
  /\ (forall P, reachable P -> Forall bounded_retry (timeouts (rt (world P)))).
Proof.
  split; [exact cycle_timeouts|]. split; [|split; [|exact reachable_bounded_retries]].
  - intros io n P Ht Hn. cbn zeta. cbn [step world pending].
    destruct (transient_is_rejected io Ht) as (e & H & _). rewrite H in Ht.
    pose proof (cycle_timeouts io n (world P)) as Hq. rewrite H, Ht in Hq.
    pose proof Hn as Hn'. apply Nat.ltb_lt in Hn'. rewrite Hn' in Hq. cbn [andb] in Hq.
    destruct (failed_cycle_state io n (world P) e H) as (Hv & Hs & Hi & Hnt).
    cbn zeta in *. rewrite Ht, Hn' in Hnt. cbn [andb] in Hnt.
    unfold fire_timeout. rewrite Hq.
    rewrite nth_error_snoc, remove_nth_snoc, Hv, Hs, Hi, Hnt.
    now replace (next_timer (rt (world P)) + 1)%nat
      with (S (next_timer (rt (world P)))) by lia.
  - intros ios io0 id P Hq Hid Hall.
    destruct (failure_run ios io0 id P Hq Hid Hall) as (Hv & Hs & _ & Hn & Ht & Hp).
    cbn zeta in *. repeat split; try assumption.
    intros Hlen. rewrite Ht.
    now replace (S (length ios) <=? 3)%nat with false
      by (symmetry; apply Nat.leb_gt; lia).
Qed.

Lemma retries_are_bounded_witness :
  timeouts (rt (world boot)) = []
  /\ is_Some (intervals (rt (world boot)) !! 0%nat)
  /\ Forall (fun io => transient (fetch_outcome io) = true) four_failures
  /\ next_timer (rt (world (run four_failure_events boot)))
     = (next_timer (rt (world boot)) + 3)%nat
  /\ timeouts (rt (world (run four_failure_events boot))) = []
  /\ vars (world (run four_failure_events boot)) = vars (world boot)
  /\ sent (rt (world (run four_failure_events boot))) = sent (rt (world boot))
  /\ pending (run four_failure_events boot) = pending boot.
Proof.
  assert (H1 : timeouts (rt (world boot)) = []) by reflexivity.
  assert (H2 : is_Some (intervals (rt (world boot)) !! 0%nat))
    by (eexists; vm_compute; reflexivity).
  assert (H3 : Forall (fun io => transient (fetch_outcome io) = true) four_failures)
    by (repeat constructor).
  destruct retries_are_bounded as (_ & _ & H & _).
  destruct (H (tl four_failures) (failing (Some "ECONNRESET")) 0%nat boot H1 H2 H3)
    as (Hn & Ht & Hv & Hs & Hp).
  split; [exact H1|]. split; [exact H2|]. split; [exact H3|].
  split; [exact Hn|]. split; [apply Ht; cbn; lia|]. split; [exact Hv|].
  split; [exact Hs | exact Hp].
Defined.

(** ** Binary64 facts

    Read off the specification of the primitive operations. *)

Lemma shr_1_halves (mrs : shr_record) :
  0 <= shr_m mrs -> shr_m (shr_1 mrs) = shr_m mrs / 2.
Proof.
  destruct mrs as [m r s]. cbn [shr_m shr_1]. intros Hm.
  destruct m as [|[p|p|]|p]; cbn [shr_m]; try reflexivity.
  - rewrite Pos2Z.inj_xI. apply Z.div_unique with 1; lia.
  - rewrite Pos2Z.inj_xO. apply Z.div_unique with 0; lia.
  - lia.
Qed.

Lemma pow2_xO (p : positive) : 2 ^ Z.pos p~0 = 2 ^ Z.pos p * 2 ^ Z.pos p.
Proof. rewrite <- Z.pow_add_r by lia. f_equal. lia. Qed.

Lemma pow2_xI (p : positive) : 2 ^ Z.pos p~1 = 2 * (2 ^ Z.pos p * 2 ^ Z.pos p).
Proof.
  rewrite <- Z.pow_add_r by lia. rewrite <- Z.pow_succ_r by lia. f_equal. lia.
Qed.

Lemma iter_shr_1 (p : positive) : forall mrs : shr_record,
  0 <= shr_m mrs ->
  shr_m (SpecFloat.iter_pos shr_1 p mrs) = shr_m mrs / 2 ^ Zpos p.
Proof.
  induction p as [p IH|p IH|]; intros mrs Hm; cbn [SpecFloat.iter_pos].
  - assert (H1 : 0 <= shr_m (shr_1 mrs)) by (rewrite shr_1_halves by lia; apply Z.div_pos; lia).
    assert (H2 : 0 <= shr_m (SpecFloat.iter_pos shr_1 p (shr_1 mrs)))
      by (rewrite IH by lia; apply Z.div_pos; lia).
    rewrite IH, IH, shr_1_halves by lia.
    rewrite !Z.div_div by lia. now rewrite pow2_xI, Z.mul_assoc.
  - assert (H2 : 0 <= shr_m (SpecFloat.iter_pos shr_1 p mrs))
      by (rewrite IH by lia; apply Z.div_pos; lia).
    rewrite IH, IH by lia. rewrite Z.div_div by lia. now rewrite pow2_xO.
  - rewrite shr_1_halves by lia. reflexivity.
Qed.

Lemma digits2_bounds (p : positive) :
  2 ^ (Z.pos (digits2_pos p) - 1) <= Z.pos p < 2 ^ Z.pos (digits2_pos p).
Proof.
  induction p as [p IH|p IH|]; cbn [digits2_pos].
  - rewrite Pos2Z.inj_succ. replace (Z.succ (Z.pos (digits2_pos p)) - 1)
      with (Z.succ (Z.pos (digits2_pos p) - 1)) by lia.
    rewrite !Z.pow_succ_r by lia. lia.
  - rewrite Pos2Z.inj_succ. replace (Z.succ (Z.pos (digits2_pos p)) - 1)
      with (Z.succ (Z.pos (digits2_pos p) - 1)) by lia.
    rewrite !Z.pow_succ_r by lia. lia.
  - cbn. lia.
Qed.

Lemma shr_record_of_loc_m (m : Z) (l : location) : shr_m (shr_record_of_loc m l) = m.
Proof. destruct l as [|[]]; reflexivity. Qed.

(** A right shift that leaves at least one bit keeps the mantissa
    positive. *)
Lemma shr_positive (M : positive) (e n : Z) (l : location) :
  n < Z.pos (digits2_pos M) ->
  0 < shr_m (fst (shr (shr_record_of_loc (Z.pos M) l) e n)).
Proof.
  intros Hn. unfold shr. destruct n as [|n|n]; cbn [fst];
    rewrite ?shr_record_of_loc_m; try lia.
  rewrite iter_shr_1 by (rewrite shr_record_of_loc_m; lia).
  rewrite shr_record_of_loc_m.
  destruct (digits2_bounds M) as [Hlo _].
  assert (Hp : 2 ^ Z.pos n <= 2 ^ (Z.pos (digits2_pos M) - 1))
    by (apply Z.pow_le_mono_r; lia).
  apply Z.div_str_pos. lia.
Qed.

Lemma shr_exponent (mrs : shr_record) (e n : Z) :
  snd (shr mrs e n) = if 0 <? n then e + n else e.
Proof. destruct n; reflexivity. Qed.

Lemma round_nearest_even_ge (m : Z) (l : location) : m <= round_nearest_even m l.
Proof. destruct l as [|[]]; cbn; try lia. destruct (Z.even m); lia. Qed.

(** Rounding a positive binary number that is not below the least
    subnormal gives a positive finite number or infinity. *)
Lemma binary_round_aux_positive (s : bool) (M : positive) (E : Z) (l : location) :
  -1074 - E < Z.pos (digits2_pos M) ->
  (exists m e, binary_round_aux prec emax s (Z.pos M) E l = S754_finite s m e)
  \/ binary_round_aux prec emax s (Z.pos M) E l = S754_infinity s.
Proof.
  intros HE. unfold binary_round_aux, shr_fexp.
  set (n1 := fexp prec emax (Zdigits2 (Z.pos M) + E) - E).
  assert (Hn1 : n1 < Z.pos (digits2_pos M)).
  { unfold n1, fexp, SpecFloat.emin, prec, emax. cbn [Zdigits2]. lia. }
  pose proof (shr_positive M E n1 l Hn1) as H1.
  pose proof (shr_exponent (shr_record_of_loc (Z.pos M) l) E n1) as He1.
  destruct (shr (shr_record_of_loc (Z.pos M) l) E n1) as [mrs1 e1].
  cbn [fst snd] in H1, He1.
  assert (He1' : -1074 <= e1).
  { rewrite He1. unfold n1, fexp, SpecFloat.emin, prec, emax in *.
    destruct (0 <? _) eqn:Hlt; [apply Z.ltb_lt in Hlt | apply Z.ltb_ge in Hlt]; lia. }
  pose proof (round_nearest_even_ge (shr_m mrs1) (loc_of_shr_record mrs1)) as H2.
  destruct (round_nearest_even (shr_m mrs1) (loc_of_shr_record mrs1)) as [|M2|M2] eqn:HM2;
    try lia.
  set (n2 := fexp prec emax (Zdigits2 (Z.pos M2) + e1) - e1).
  assert (Hn2 : n2 < Z.pos (digits2_pos M2)).
  { unfold n2, fexp, SpecFloat.emin, prec, emax. cbn [Zdigits2]. lia. }
  pose proof (shr_positive M2 e1 n2 loc_Exact Hn2) as H3.
  destruct (shr (shr_record_of_loc (Z.pos M2) loc_Exact) e1 n2) as [mrs2 e2].
  cbn [fst] in H3.
  destruct (shr_m mrs2) as [|m|m]; try lia.
  destruct (e2 <=? emax - prec); [left; eauto | now right].
Qed.

Lemma Prim2SF_zero : Prim2SF 0%float = S754_zero false.
Proof. reflexivity. Qed.

Lemma Prim2SF_1000 : Prim2SF 1000%float = S754_finite false 8796093022208000 (-43).
Proof. vm_compute. reflexivity. Qed.

(** The Numbers above zero are the positive finite ones and [+Infinity]. *)
Lemma gt_zero_cases (x : number) :
  gt x 0%float = true <->
  Prim2SF x = S754_infinity false \/ exists m e, Prim2SF x = S754_finite false m e.
Proof.
  unfold gt. rewrite FloatAxioms.ltb_spec, Prim2SF_zero. unfold SFltb.
  destruct (Prim2SF x) as [s|[]| |[] m e]; cbn; split;
    try discriminate; try reflexivity; eauto.
  all: intros [H|(m' & e' & H)]; discriminate H.
Qed.

Lemma valid_exponent (x : number) (s : bool) (m : positive) (e : Z) :
  Prim2SF x = S754_finite s m e -> -1074 <= e.
Proof.
  intros H. pose proof (Prim2SF_valid x) as Hv. rewrite H in Hv.
  cbn [SpecFloat.valid_binary] in Hv. unfold bounded, canonical_mantissa in Hv.
  apply andb_true_iff in Hv as [Hc _]. apply Z.eqb_eq in Hc.
  unfold fexp, SpecFloat.emin, prec, emax in Hc. lia.
Qed.

(** Seconds above zero are milliseconds above zero. *)
Lemma mul_1000_positive (x : number) :
  gt x 0%float = true -> gt (PrimFloat.mul x 1000%float) 0%float = true.
Proof.
  rewrite !gt_zero_cases, mul_spec, Prim2SF_1000.
  intros [H|(m & e & H)]; rewrite H; cbn [SF64mul SFmul xorb]; [now left|].
  pose proof (valid_exponent x false m e H) as He.
  destruct (binary_round_aux_positive false (m * 8796093022208000) (e + -43) loc_Exact)
    as [Hf|Hi]; [|now right|now left].
  destruct (digits2_bounds (m * 8796093022208000)) as [_ Hup].
  assert (H52 : 2 ^ 52 < 2 ^ Z.pos (digits2_pos (m * 8796093022208000))).
  { eapply Z.le_lt_trans; [|exact Hup]. rewrite Pos2Z.inj_mul.
    change (2 ^ 52) with 4503599627370496. nia. }
  apply Z.pow_lt_mono_r_iff in H52; lia.
Qed.

Lemma digits2_iter_xO (k p : positive) :
  Z.pos (digits2_pos (Pos.iter xO p k)) = Z.pos (digits2_pos p) + Z.pos k.
Proof.
  induction k as [|k IH] using Pos.peano_ind.
  - cbn [Pos.iter digits2_pos]. lia.
  - rewrite Pos.iter_succ. cbn [digits2_pos]. lia.
Qed.

Lemma shr_fexp_canonical (m : positive) (e : Z) :
  Z.pos (digits2_pos m) = 53 -> -1074 <= e ->
  shr_fexp prec emax (Z.pos m) e loc_Exact
  = (shr_record_of_loc (Z.pos m) loc_Exact, e).
Proof.
  intros Hd He. unfold shr_fexp. cbn [Zdigits2]. rewrite Hd.
  replace (fexp prec emax (53 + e) - e) with 0
    by (unfold fexp, SpecFloat.emin, prec, emax; lia).
  reflexivity.
Qed.

(** The Number of a whole number from 1 to [2^53 - 1] is finite and
    positive. *)
Lemma of_Z_exact (p : positive) :
  Z.pos p < 2 ^ 53 ->
  exists m e, Prim2SF (of_Z (Z.pos p)) = S754_finite false m e.
Proof.
  intros Hp. unfold of_Z. cbn [binary_normalize]. unfold binary_round.
  destruct (digits2_bounds p) as [Hlo _].
  assert (Hd : Z.pos (digits2_pos p) <= 53).
  { destruct (Z.le_gt_cases (Z.pos (digits2_pos p)) 53) as [H|H]; [exact H|].
    assert (2 ^ 53 <= 2 ^ (Z.pos (digits2_pos p) - 1)) by (apply Z.pow_le_mono_r; lia).
    lia. }
  set (d := Z.pos (digits2_pos p)) in *.
  assert (Hal : exists mz ez,
             shl_align p 0 (fexp prec emax (d + 0)) = (mz, ez)
             /\ Z.pos (digits2_pos mz) = 53 /\ ez = d - 53).
  { unfold shl_align, fexp, SpecFloat.emin, prec, emax.
    replace (Z.max (d + 0 - 53) (3 - 1024 - 53)) with (d - 53) by lia.
    destruct (d - 53 - 0) as [|k|k] eqn:Hk; try lia.
    - exists p, 0. repeat split; fold d; lia.
    - exists (Pos.iter xO p k), (d - 53). repeat split.
      rewrite digits2_iter_xO. fold d. lia. }
  destruct Hal as (mz & ez & -> & Hmz & Hez).
  assert (He : -1074 <= ez) by (unfold d in *; lia).
  unfold binary_round_aux. rewrite (shr_fexp_canonical mz ez Hmz He).
  cbn [shr_m shr_record_of_loc loc_of_shr_record round_nearest_even].
  rewrite (shr_fexp_canonical mz ez Hmz He). cbn [shr_m shr_record_of_loc].
  replace (ez <=? emax - prec) with true
    by (symmetry; apply Z.leb_le; unfold emax, prec; lia).
  exists mz, ez. apply Prim2SF_SF2Prim.
  cbn [SpecFloat.valid_binary]. unfold bounded, canonical_mantissa.
  rewrite Hmz. apply andb_true_iff. split.
  - apply Z.eqb_eq. unfold fexp, SpecFloat.emin, prec, emax. lia.
  - apply Z.leb_le. unfold emax, prec. lia.
Qed.

(** The [length] of a non-empty array compares above zero. *)
Lemma length_positive {A} (l : list A) :
  l <> [] -> Z.of_nat (length l) < 2 ^ 32 ->
  gt (of_Z (Z.of_nat (length l))) 0%float = true.
Proof.
  intros Hne Hlen. apply gt_zero_cases. right.
  destruct l as [|a l]; [now destruct Hne|].
  cbn [length] in *. rewrite Nat2Z.inj_succ in *.
  destruct (Z.succ (Z.of_nat (length l))) as [|p|p] eqn:Hp; try lia.
  apply of_Z_exact. assert (2 ^ 32 < 2 ^ 53) by (apply Z.pow_lt_mono_r; lia). lia.
Qed.

(** ** The alert memory and the outbox *)

Lemma acknowledged_snoc (sd : side) (log : list (string * bool)) (text : string) (ok : bool) :
  acknowledged sd (log ++ [(text, ok)])
  = acknowledged sd log ++ (if about sd (text, ok) && ok then [text] else []).
Proof.
  unfold acknowledged. rewrite filter_app, fmap_app. f_equal.
  destruct (about sd (text, ok)) eqn:Ha; destruct ok; cbn [andb].
  - rewrite filter_cons_True by (split; [exact Ha | reflexivity]). reflexivity.
  - rewrite filter_cons_False by (intros [_ H]; discriminate H). reflexivity.
  - rewrite filter_cons_False by (intros [H _]; rewrite Ha in H; discriminate H).
    reflexivity.
  - rewrite filter_cons_False by (intros [_ H]; discriminate H). reflexivity.
Qed.

Lemma side_eq_or_not (a b : side) : a = b \/ a <> b.
Proof. destruct a, b; (now left) || (right; discriminate). Qed.

Lemma remember_memory (sd other : side) (v : number) (g : Globals) :
  last_alerted other (remember sd v g)
  = if about other (alert_text sd v, true) then Some v else last_alerted other g.
Proof. destruct sd, other; reflexivity. Qed.

(** X1. In every state the process reaches, whatever cycles overlap, a
    side has an alert memory exactly when a message of that side has been
    acknowledged: the memory is absent until the first acknowledgement,
    and never absent again. *)
Theorem memory_is_absent_until_acknowledged (P : Process) (sd : side) :
  reachable P ->
  last_alerted sd (vars (world P)) = None
  <-> acknowledged sd (sent (rt (world P))) = [].
Proof.
  intros HP. revert sd.
  apply (reachable_worlds
           (fun w => forall sd, last_alerted sd (vars w) = None
                                <-> acknowledged sd (sent (rt w)) = []));
    [| | | |exact HP].
  - intros sd. now destruct sd.
  - intros body w H sd. rewrite set_params_memory.
    destruct (set_params_frame body w) as (_ & _ & _ & _ & -> & _). apply H.
  - intros k w t w' H Hf sd.
    destruct (fire_timeout_frame _ _ _ _ Hf) as (-> & _ & _ & ->). apply H.
  - intros [|text] s w w' H; cbn [stretch settle].
    + intros (_ & _ & _ & _ & Hl & Hs & _ & -> & _) sd.
      destruct sd; cbn [last_alerted]; [rewrite Hl; exact (H Long) | rewrite Hs; exact (H Short)].
    + intros (sd0 & v & -> & ->) sd. cbn [vars rt sent].
      rewrite acknowledged_snoc.
      destruct (resolved s); cbn [andb].
      * rewrite remember_memory, andb_true_r.
        replace (about sd (alert_text sd0 v, true))
          with (about sd (alert_text sd0 (last_sample sd0 (vars w)), true))
          by (destruct sd0, sd; reflexivity).
        destruct (about sd _).
        -- split; [discriminate|]. intros Ha. now apply app_eq_nil in Ha as [_ Ha].
        -- rewrite app_nil_r. apply H.
      * rewrite andb_false_r, app_nil_r. apply H.
Qed.

Lemma memory_is_absent_until_acknowledged_witness :
  reachable (run (overlapping_ticks (response (VArr [candle "1000000" "0"])) 1) boot)
  /\ (lastLongAlertValue
        (vars (world (run (overlapping_ticks (response (VArr [candle "1000000" "0"])) 1)
                        boot))) = None
      <-> acknowledged Long
            (sent (rt (world (run (overlapping_ticks
                                     (response (VArr [candle "1000000" "0"])) 1) boot))))
          = []).
Proof.
  assert (Hr : reachable
                 (run (overlapping_ticks (response (VArr [candle "1000000" "0"])) 1) boot))
    by (do 5 apply reachable_step; apply reachable_boot).
  split; [exact Hr|].
  exact (memory_is_absent_until_acknowledged _ Long Hr).
Defined.

(** ** The configuration *)

Lemma set_params_valid (body : gmap string value) (w : World) :
  valid_configuration (vars w) ->
  valid_configuration (vars (exec (post_set_params body) w)).
Proof.
  intros (Hl & Hs & Hp). unfold exec. rewrite (post_set_params_result body w).
  destruct (read_params body) as [e|[[lt st] pi]]; [now repeat split|]. cbn [snd].
  destruct (with_thresholds_fields lt st (vars w)) as (Fl & Fs & Fp & _).
  cbn zeta in *.
  assert (Hl' : isNaN (longThreshold (with_thresholds lt st (vars w))) = false).
  { rewrite Fl. now destruct (isNaN lt) eqn:H. }
  assert (Hs' : isNaN (shortThreshold (with_thresholds lt st (vars w))) = false).
  { rewrite Fs. now destruct (isNaN st) eqn:H. }
  destruct (accepted_interval pi) eqn:Ha.
  - rewrite schedule_result. unfold valid_configuration.
    cbn [vars set_intervalId set_pollingIntervalMs longThreshold shortThreshold
         pollingIntervalMs].
    split; [exact Hl'|]. split; [exact Hs'|].
    apply mul_1000_positive. unfold accepted_interval in Ha.
    now apply andb_true_iff in Ha as [_ Ha].
  - unfold valid_configuration. cbn [vars]. rewrite Fp. now repeat split.
Qed.

Lemma startup_valid : valid_configuration (vars startup).
Proof. vm_compute. repeat constructor. Qed.

(** X2. In every state the process reaches, both thresholds are Numbers
    (never [NaN]), the polling period is above zero, and the one active
    timer runs at that period: no request can store a threshold that is
    not a number or a period that is not positive. *)
Theorem configuration_stays_valid (P : Process) :
  reachable P ->
  let w := world P in
  isNaN (longThreshold (vars w)) = false
  /\ isNaN (shortThreshold (vars w)) = false
  /\ gt (pollingIntervalMs (vars w)) 0%float = true
  /\ exists id p, intervals (rt w) = {[ id := p ]} /\ gt p 0%float = true.
Proof.
  intros HP. cbn zeta.
  assert (Hv : valid_configuration (vars (world P))).
  { apply (reachable_worlds (fun w => valid_configuration (vars w)));
      [| | | |exact HP].
    - exact startup_valid.
    - intros body w H. now apply set_params_valid.
    - intros k w t w' H Hf. destruct (fire_timeout_frame _ _ _ _ Hf) as (-> & _).
      exact H.
    - intros p s w w' (Hl & Hs & Hp) Hst.
      destruct (stretch_frame p s w w' Hst) as (F1 & F2 & F3 & _).
      unfold valid_configuration. now rewrite F1, F2, F3. }
  destruct Hv as (Hl & Hs & Hp). repeat (split; [assumption|]).
  destruct (reachable_one_timer P HP) as (id & _ & Hi & _).
  now exists id, (pollingIntervalMs (vars (world P))).
Qed.

Lemma configuration_stays_valid_witness :
  reachable (run [PostSetParams (form [("longThreshold", "NaN"); ("pollInterval", "0.5")]);
                  IntervalTick 1;
                  PostSetParams (form [("shortThreshold", "-1"); ("pollInterval", "-3")])]
               boot)
  /\ gt (pollingIntervalMs
           (vars (world (run [PostSetParams (form [("longThreshold", "NaN");
                                                   ("pollInterval", "0.5")]);
                              IntervalTick 1;
                              PostSetParams (form [("shortThreshold", "-1");
                                                   ("pollInterval", "-3")])]
                           boot)))) 0%float = true.
Proof.
  assert (Hr : reachable
                 (run [PostSetParams (form [("longThreshold", "NaN");
                                            ("pollInterval", "0.5")]);
                       IntervalTick 1;
                       PostSetParams (form [("shortThreshold", "-1");
                                            ("pollInterval", "-3")])]
                    boot))
    by (do 3 apply reachable_step; apply reachable_boot).
  split; [exact Hr|].
  destruct (configuration_stays_valid _ Hr) as (_ & _ & H & _). exact H.
Defined.

(** The run of that example, computed: the first request sets the period
    to half a second, the second one only the short threshold. *)
Lemma configuration_example :
  let w := world (run [PostSetParams (form [("longThreshold", "NaN");
                                            ("pollInterval", "0.5")]);
                       IntervalTick 1;
                       PostSetParams (form [("shortThreshold", "-1");
                                            ("pollInterval", "-3")])]
                    boot) in
  longThreshold (vars w) = 5000000%float
  /\ shortThreshold (vars w) = (-1)%float
  /\ pollingIntervalMs (vars w) = 500%float.
Proof. vm_compute. repeat constructor. Qed.

(** X3. A cycle never reconfigures the monitor: whatever the network
    answers, the thresholds, the polling period, the timer handle and the
    active periodic timers are after the cycle what they were before. *)
Theorem cycle_keeps_configuration (io : Network) (n : nat) (w : World) :
  let w' := exec (cycle io n) w in
  longThreshold (vars w') = longThreshold (vars w)
  /\ shortThreshold (vars w') = shortThreshold (vars w)
  /\ pollingIntervalMs (vars w') = pollingIntervalMs (vars w)
  /\ intervalId (vars w') = intervalId (vars w)
  /\ intervals (rt w') = intervals (rt w).
Proof.
  cbn zeta.
  pose proof (cycle_thresholds io n w Long) as Tl.
  pose proof (cycle_thresholds io n w Short) as Ts.
  destruct (cycle_timer_frame io n w) as (Ti & Tp & Tm & _). cbn zeta in *.
  now repeat split.
Qed.

(** ** The retry count *)

Lemma same_acknowledgements (sd : side) (io io' : Network) (w : World) :
  (forall k m, telegram_ok io k m = telegram_ok io' k m) ->
  check_side sd io w = check_side sd io' w.
Proof. intros H. unfold check_side. now rewrite H. Qed.

(** A cycle is decided by what the fetch amounts to and by the
    acknowledgements. *)
Lemma cycle_extensional (io io' : Network) (n : nat) (w : World) :
  fetch_outcome io = fetch_outcome io' ->
  (forall k m, telegram_ok io k m = telegram_ok io' k m) ->
  cycle io n w = cycle io' n w.
Proof.
  intros Hf Ht. destruct (fetch_outcome io') as [l s|l e| |e] eqn:H'.
  - rewrite (uninterrupted_sample io _ _ _ _ Hf),
      (uninterrupted_sample io' _ _ _ _ H').
    rewrite (same_acknowledgements Long io io' _ Ht).
    now rewrite (same_acknowledgements Short io io' _ Ht).
  - now rewrite (uninterrupted_long_only io _ _ _ _ Hf),
      (uninterrupted_long_only io' _ _ _ _ H').
  - now rewrite (uninterrupted_no_sample io _ _ Hf),
      (uninterrupted_no_sample io' _ _ H').
  - now rewrite (uninterrupted_failed io _ _ _ Hf),
      (uninterrupted_failed io' _ _ _ H').
Qed.

(** X4. The retry count matters only to a transient failure: a cycle
    whose fetch succeeds, finds no data, or fails with another error does
    exactly what a first attempt would do, so a retry that gets through
    stores the sample and alerts like a tick of the timer. *)
Theorem retry_count_only_matters_to_transient_failures
    (io : Network) (n m : nat) (w : World) :
  transient (fetch_outcome io) = false ->
  cycle io n w = cycle io m w.
Proof.
  intros Ht. destruct (fetch_outcome io) as [l s|l e| |e] eqn:H.
  - now rewrite !(uninterrupted_sample _ _ _ _ _ H).
  - rewrite !(uninterrupted_long_only _ _ _ _ _ H). now rewrite Ht.
  - now rewrite !(uninterrupted_no_sample _ _ _ H).
  - rewrite !(uninterrupted_failed _ _ _ _ H). now rewrite Ht.
Qed.

Lemma retry_count_only_matters_to_transient_failures_witness :
  transient (fetch_outcome fetch_7250000) = false
  /\ cycle fetch_7250000 3 after_first
     = cycle fetch_7250000 0 after_first.
Proof.
  assert (H : transient (fetch_outcome fetch_7250000) = false)
    by (vm_compute; reflexivity).
  split; [exact H|].
  exact (retry_count_only_matters_to_transient_failures fetch_7250000 3 0 after_first H).
Defined.

(** ** The messages of a call *)

(** X5. Whatever the settlements, and whatever runs between them, a call
    of [checkLiquidations] waits for the request first, then for at most
    one message about the long side, then for at most one message about
    the short side, and completes without letting an error out. *)
Theorem call_waits_long_then_short
    (n : nat) (w : World) (ps : list request) (c : completion unit) :
  waits (checkLiquidations n w) ps c ->
  c = Normal tt
  /\ exists la sa : list request,
       ps = HttpGet :: la ++ sa
       /\ (length la <= 1)%nat /\ (length sa <= 1)%nat
       /\ Forall (fun p => exists v, p = SendMessage (alert_text Long v)) la
       /\ Forall (fun p => exists v, p = SendMessage (alert_text Short v)) sa.
Proof.
  intros H. unfold checkLiquidations in H.
  repeat match goal with
         | Hw : waits _ _ _ |- _ => next_wait Hw
         end.
  all: split; [reflexivity|].
  all: first [ exists [], []; finish_waits
             | eexists [_], []; finish_waits
             | eexists [], [_]; finish_waits
             | eexists [_], [_]; finish_waits ].
Qed.

(** A call that nothing interrupts is one of these runs. *)
Lemma uninterrupted_waits {A} (io : Network) (a : async A) :
  waits a (awaited io a) (fst (uninterrupted io a)).
Proof.
  induction a as [c w|p w k IH]; cbn [awaited uninterrupted fst].
  - apply waits_done.
  - exact (waits_await p w k _ _ _ _ (IH _ _)).
Qed.

Lemma requests_of_both_sides :
  awaited fetch_both_sides (checkLiquidations 0 startup)
  = [HttpGet; SendMessage (alert_text Long 6000000%float);
     SendMessage (alert_text Short 12000000%float)].
Proof. vm_compute. reflexivity. Qed.

Lemma call_waits_long_then_short_witness :
  waits (checkLiquidations 0 startup)
    (awaited fetch_both_sides (checkLiquidations 0 startup))
    (fst (uninterrupted fetch_both_sides (checkLiquidations 0 startup)))
  /\ exists la sa : list request,
       awaited fetch_both_sides (checkLiquidations 0 startup) = HttpGet :: la ++ sa
       /\ (length la <= 1)%nat /\ (length sa <= 1)%nat
       /\ Forall (fun p => exists v, p = SendMessage (alert_text Long v)) la
       /\ Forall (fun p => exists v, p = SendMessage (alert_text Short v)) sa.
Proof.
  split; [exact (uninterrupted_waits fetch_both_sides (checkLiquidations 0 startup))|].
  exact (proj2 (call_waits_long_then_short 0 startup _ _
                  (uninterrupted_waits fetch_both_sides (checkLiquidations 0 startup)))).
Defined.

(** ** Repeating a request *)

Lemma with_thresholds_twice (lt st : number) (g : Globals) :
  with_thresholds lt st (with_thresholds lt st g) = with_thresholds lt st g.
Proof.
  unfold with_thresholds. destruct (isNaN lt); destruct (isNaN st); reflexivity.
Qed.

(** X6. [POST /set-params] is idempotent on what the monitor knows: the
    same body posted a second time leaves thresholds, period, samples and
    alert memory as the first request left them (the timer alone is
    renewed when the period is accepted). *)
Theorem set_params_twice (body : gmap string value) (w : World) :
  let w1 := exec (post_set_params body) w in
  let w2 := exec (post_set_params body) w1 in
  monitor_state w2 = monitor_state w1
  /\ sent (rt w2) = sent (rt w1)
  /\ timeouts (rt w2) = timeouts (rt w1)
  /\ ((forall pi, body_field body "pollInterval" = inr pi -> accepted_interval pi = false)
      -> w2 = w1).
Proof.
  cbn zeta. unfold exec. rewrite (post_set_params_result body w).
  destruct (read_params body) as [e|[[lt st] pi]] eqn:Hr; cbn [snd].
  { rewrite (post_set_params_result body w), Hr. now repeat split. }
  set (w1 := if accepted_interval _ then _ else _).
  rewrite (post_set_params_result body w1), Hr. cbn [snd]. subst w1.
  assert (Hpi : body_field body "pollInterval" = inr pi).
  { unfold read_params in Hr.
    destruct (body_field body "longThreshold"); [discriminate Hr|].
    destruct (body_field body "shortThreshold"); [discriminate Hr|].
    destruct (body_field body "pollInterval"); [discriminate Hr|].
    now injection Hr as _ _ ->. }
  destruct (accepted_interval pi) eqn:Ha.
  - rewrite !schedule_result.
    cbn [vars rt set_intervalId set_pollingIntervalMs sent timeouts].
    split; [|split; [reflexivity|split; [reflexivity|]]].
    + unfold monitor_state, with_thresholds.
      destruct (isNaN lt); destruct (isNaN st); reflexivity.
    + intros H. rewrite (H pi Hpi) in Ha. discriminate Ha.
  - cbn [vars rt]. rewrite with_thresholds_twice. now repeat split.
Qed.

Lemma set_params_twice_witness :
  (forall pi, body_field (form [("longThreshold", "1")]) "pollInterval" = inr pi ->
              accepted_interval pi = false)
  /\ exec (post_set_params (form [("longThreshold", "1")]))
       (exec (post_set_params (form [("longThreshold", "1")])) startup)
     = exec (post_set_params (form [("longThreshold", "1")])) startup.
Proof.
  assert (H : forall pi,
             body_field (form [("longThreshold", "1")]) "pollInterval" = inr pi ->
             accepted_interval pi = false).
  { intros pi Hpi.
    assert (Hf : body_field (form [("longThreshold", "1")]) "pollInterval"
                 = inr PrimFloat.nan) by (vm_compute; reflexivity).
    rewrite Hf in Hpi. injection Hpi as <-. vm_compute. reflexivity. }
  split; [exact H|].
  exact (proj2 (proj2 (proj2
           (set_params_twice (form [("longThreshold", "1")]) startup))) H).
Defined.

(** ** The data point that is read *)

Lemma data_of_array (body : value) (elems : list value) :
  optional_property body "data" = VArr elems ->
  or_else (optional_property body "data") (VArr []) = VArr elems.
Proof. now intros ->. Qed.

(** What the fetch amounts to on a non-empty array: its first element
    alone decides. *)
Lemma fetch_outcome_first (io : Network) (body c : value) (rest : list value) :
  http_get io = Resolved body ->
  optional_property body "data" = VArr (c :: rest) ->
  Z.of_nat (length (c :: rest)) < 2 ^ 32 ->
  fetch_outcome io = read_candle c.
Proof.
  intros Hget Hdata Hlen. unfold fetch_outcome.
  rewrite Hget, (data_of_array _ _ Hdata).
  cbn [get_property String.eqb Ascii.eqb Bool.eqb ToNumber].
  rewrite (length_positive (c :: rest)) by (discriminate || exact Hlen).
  reflexivity.
Qed.

(** X7. Only the first element of [data] is read: when the response
    carries a non-empty array (of fewer than [2^32] elements, as every
    array is), the cycle does what it does on the array cut down to its
    first element, whatever the other elements are. *)
Theorem only_the_first_data_point
    (io io' : Network) (body body' c : value) (rest : list value) (n : nat) (w : World) :
  http_get io = Resolved body ->
  http_get io' = Resolved body' ->
  optional_property body "data" = VArr (c :: rest) ->
  optional_property body' "data" = VArr [c] ->
  Z.of_nat (length (c :: rest)) < 2 ^ 32 ->
  (forall k m, telegram_ok io k m = telegram_ok io' k m) ->
  fetch_outcome io = fetch_outcome io'
  /\ cycle io n w = cycle io' n w.
Proof.
  intros Hget Hget' Hdata Hdata' Hlen Hack.
  assert (Hf : fetch_outcome io = fetch_outcome io').
  { rewrite (fetch_outcome_first io body c rest Hget Hdata Hlen).
    rewrite (fetch_outcome_first io' body' c [] Hget' Hdata'); [reflexivity|].
    cbn. lia. }
  split; [exact Hf|]. now apply cycle_extensional.
Qed.

Lemma only_the_first_data_point_witness :
  http_get fetch_6000000_then_more
  = Resolved (response (VArr [candle "6000000" "0"; candle "9000000" "1"; VNull]))
  /\ optional_property
       (response (VArr [candle "6000000" "0"; candle "9000000" "1"; VNull])) "data"
     = VArr [candle "6000000" "0"; candle "9000000" "1"; VNull]
  /\ optional_property (response (VArr [candle "6000000" "0"])) "data"
     = VArr [candle "6000000" "0"]
  /\ cycle fetch_6000000_then_more 0 startup
     = cycle fetch_6000000 0 startup.
Proof.
  assert (H1 : optional_property
                 (response (VArr [candle "6000000" "0"; candle "9000000" "1"; VNull]))
                 "data"
               = VArr [candle "6000000" "0"; candle "9000000" "1"; VNull])
    by (vm_compute; reflexivity).
  assert (H2 : optional_property (response (VArr [candle "6000000" "0"])) "data"
               = VArr [candle "6000000" "0"]) by (vm_compute; reflexivity).
  split; [reflexivity|]. split; [exact H1|]. split; [exact H2|].
  refine (proj2 (only_the_first_data_point fetch_6000000_then_more fetch_6000000
                   _ _ _ _ 0 startup eq_refl eq_refl H1 H2 _ _)).
  - cbn. lia.
  - reflexivity.
Defined.

Lemma candle_field_falsy :
  candle_field VUndefined = inr 0%float
  /\ candle_field VNull = inr 0%float
  /\ candle_field (VStr "") = inr 0%float.
Proof. vm_compute. repeat constructor. Qed.

Lemma candle_field_string (t : string) :
  t <> "" -> candle_field (VStr t) = inr (parseFloat t).
Proof.
  intros Ht. unfold candle_field, or_else. cbn [ToBoolean].
  destruct (String.eqb t "") eqn:E; [apply String.eqb_eq in E; now destruct Ht|].
  reflexivity.
Qed.

(** What a field reads as when it is absent, [null] or a string. *)
Lemma plain_field_reads (props : gmap string value) (name : string) :
  props !! name = None \/ props !! name = Some VNull
  \/ (exists t, props !! name = Some (VStr t)) ->
  exists x, candle_field (default VUndefined (props !! name)) = inr x
            /\ (props !! name = None \/ props !! name = Some VNull
                \/ props !! name = Some (VStr "") -> x = 0%float)
            /\ (forall t, props !! name = Some (VStr t) -> t <> "" -> x = parseFloat t).
Proof.
  destruct candle_field_falsy as (F1 & F2 & F3).
  intros [H|[H|[t H]]]; rewrite H; cbn [default from_option id].
  - exists 0%float. split; [exact F1|]. split; [reflexivity|]. discriminate.
  - exists 0%float. split; [exact F2|]. split; [reflexivity|]. discriminate.
  - destruct (string_dec t "") as [->|Ht].
    + exists 0%float. split; [exact F3|]. split; [reflexivity|].
      intros t' [= <-] Hne. now destruct Hne.
    + exists (parseFloat t). split; [now apply candle_field_string|]. split.
      * intros [H'|[H'|H']]; try discriminate H'. injection H' as ->. now destruct Ht.
      * now intros t' [= <-] _.
Qed.

(** X8. A data point that is an object whose two fields are each absent,
    [null] or a string always gives a sample; a field it does not carry,
    or carries as [null] or as the empty string, reads as 0, and a field
    carried as a non-empty string reads as [parseFloat] of that string. *)
Theorem missing_field_reads_zero
    (io : Network) (body : value) (props : gmap string value) (rest : list value) :
  http_get io = Resolved body ->
  optional_property body "data" = VArr (VObj props :: rest) ->
  Z.of_nat (length (VObj props :: rest)) < 2 ^ 32 ->
  (forall sd, props !! field_name sd = None \/ props !! field_name sd = Some VNull
              \/ exists t, props !! field_name sd = Some (VStr t)) ->
  exists l s : number,
    fetch_outcome io = Sample l s
    /\ forall sd,
         (props !! field_name sd = None \/ props !! field_name sd = Some VNull
          \/ props !! field_name sd = Some (VStr "") -> pick sd l s = 0%float)
         /\ (forall t, props !! field_name sd = Some (VStr t) -> t <> "" ->
             pick sd l s = parseFloat t).
Proof.
  intros Hget Hdata Hlen Hplain.
  rewrite (fetch_outcome_first io body _ rest Hget Hdata Hlen).
  unfold read_candle. cbn [get_property].
  pose proof (plain_field_reads props _ (Hplain Long)) as HL.
  pose proof (plain_field_reads props _ (Hplain Short)) as HS.
  cbn [field_name] in HL, HS.
  destruct HL as (l & -> & Hl0 & Hlt). destruct HS as (s & -> & Hs0 & Hst).
  exists l, s. split; [reflexivity|].
  intros sd. destruct sd; cbn [pick field_name] in *; now split.
Qed.

Lemma missing_field_reads_zero_witness :
  http_get fetch_unreadable
  = Resolved (response (VArr [VObj (<["longLiquidationUsd" := VStr "n/a"]> ∅)]))
  /\ (<["longLiquidationUsd" := VStr "n/a"]> ∅ : gmap string value)
       !! field_name Short = None
  /\ exists l s : number,
       fetch_outcome fetch_unreadable = Sample l s
       /\ s = 0%float /\ l = parseFloat "n/a".
Proof.
  assert (H1 : optional_property
                 (response (VArr [VObj (<["longLiquidationUsd" := VStr "n/a"]> ∅)]))
                 "data"
               = VArr [VObj (<["longLiquidationUsd" := VStr "n/a"]> ∅)])
    by (vm_compute; reflexivity).
  assert (H2 : (<["longLiquidationUsd" := VStr "n/a"]> ∅ : gmap string value)
               !! field_name Short = None) by (vm_compute; reflexivity).
  assert (H3 : (<["longLiquidationUsd" := VStr "n/a"]> ∅ : gmap string value)
               !! field_name Long = Some (VStr "n/a")) by (vm_compute; reflexivity).
  assert (Hp : forall sd,
             (<["longLiquidationUsd" := VStr "n/a"]> ∅ : gmap string value)
               !! field_name sd = None
             \/ (<["longLiquidationUsd" := VStr "n/a"]> ∅ : gmap string value)
                  !! field_name sd = Some VNull
             \/ exists t, (<["longLiquidationUsd" := VStr "n/a"]> ∅ : gmap string value)
                            !! field_name sd = Some (VStr t)).
  { intros [|]; [right; right; now exists "n/a" | now left]. }
  split; [reflexivity|]. split; [exact H2|].
  destruct (missing_field_reads_zero fetch_unreadable _ _ [] eq_refl H1)
    as (l & s & Hf & Hsd); [cbn; lia | exact Hp |].
  exists l, s. split; [exact Hf|]. split.
  - apply (proj1 (Hsd Short)). now left.
  - apply (proj2 (Hsd Long) "n/a" H3). discriminate.
Defined.

(** ** Samples that are not numbers *)

Lemma NaN_is_not_above (v t : number) : isNaN v = true -> gt v t = false.
Proof.
  unfold isNaN, is_nan, gt. rewrite FloatAxioms.eqb_spec, FloatAxioms.ltb_spec.
  unfold SFeqb, SFltb.
  destruct (Prim2SF v) as [s|s| |s m e]; cbn.
  - discriminate.
  - destruct s; discriminate.
  - intros _. now destruct (Prim2SF t).
  - destruct s; rewrite Z.compare_refl, Pos.compare_cont_refl; discriminate.
Qed.

(** X9. A field that does not parse as a number silences its side: the
    sample of that side becomes [NaN], which is above no threshold, so
    nothing is dispatched for the side and its alert memory stays. *)
Theorem unreadable_sample_is_silent
    (sd : side) (io : Network) (n : nat) (w : World) (l s : number) :
  fetch_outcome io = Sample l s ->
  isNaN (pick sd l s) = true ->
  let w' := exec (cycle io n) w in
  isNaN (last_sample sd (vars w')) = true
  /\ attempts sd w w' = []
  /\ last_alerted sd (vars w') = last_alerted sd (vars w).
Proof.
  intros H Hnan. cbn zeta.
  assert (Ha : attempts sd w (exec (cycle io n) w) = []).
  { apply (quiet_side sd io n w l s H). now apply NaN_is_not_above. }
  split; [|split; [exact Ha|]].
  - destruct (cycle_sample io n w l s H) as (Hl & Hs & _). cbn zeta in *.
    destruct sd; cbn [last_sample pick] in *; congruence.
  - rewrite (cycle_memory sd io n w l s H), Ha. reflexivity.
Qed.

Lemma unreadable_sample_is_silent_witness :
  fetch_outcome fetch_unreadable = Sample (parseFloat "n/a") 0%float
  /\ isNaN (parseFloat "n/a") = true
  /\ isNaN (lastLongLiq (vars (exec (cycle fetch_unreadable 0) after_first)))
     = true
  /\ attempts Long after_first (exec (cycle fetch_unreadable 0) after_first)
     = []
  /\ lastLongAlertValue (vars (exec (cycle fetch_unreadable 0) after_first))
     = lastLongAlertValue (vars after_first).
Proof.
  assert (H1 : fetch_outcome fetch_unreadable = Sample (parseFloat "n/a") 0%float)
    by (vm_compute; reflexivity).
  assert (H2 : isNaN (parseFloat "n/a") = true) by (vm_compute; reflexivity).
  split; [exact H1|]. split; [exact H2|].
  exact (unreadable_sample_is_silent Long fetch_unreadable 0 after_first _ _ H1 H2).
Defined.

(** ** A memory of one value *)

Lemma SFeqb_sym (x y : spec_float) : SFeqb x y = true -> SFeqb y x = true.
Proof.
  unfold SFeqb, SFcompare.
  destruct x as [sx|sx| |sx mx ex], y as [sy|sy| |sy my ey];
    try (destruct sx); try (destruct sy); cbn;
    try (intros H; discriminate H); try reflexivity.
  all: destruct (Z.compare ex ey) eqn:He; try (intros H; discriminate H).
  all: apply Z.compare_eq in He; subst ey; rewrite Z.compare_refl.
  all: rewrite ?Pos.compare_cont_spec; cbn.
  all: destruct (Pos.compare mx my) eqn:Hm; cbn; try (intros H; discriminate H).
  all: apply Pos.compare_eq in Hm; subst my; now rewrite Pos.compare_refl.
Qed.

Lemma strict_neq_sym (a b : number) : strict_neq a b = strict_neq b a.
Proof.
  unfold strict_neq. f_equal. rewrite !FloatAxioms.eqb_spec.
  destruct (SFeqb (Prim2SF a) (Prim2SF b)) eqn:H1.
  - symmetry. now apply SFeqb_sym.
  - destruct (SFeqb (Prim2SF b) (Prim2SF a)) eqn:H2; [|reflexivity].
    apply SFeqb_sym in H2. congruence.
Qed.

(** X10. The memory of a side is one value deep: when a value was
    dispatched and acknowledged, then another one, and the first value
    comes back, it is dispatched again.  A side that alternates between
    two values above its threshold alerts on every cycle. *)
Theorem memory_is_one_value_deep
    (sd : side) (io1 io2 io3 : Network) (n1 n2 n3 : nat) (w : World)
    (l1 s1 l2 s2 l3 s3 : number) :
  fetch_outcome io1 = Sample l1 s1 ->
  fetch_outcome io2 = Sample l2 s2 ->
  fetch_outcome io3 = Sample l3 s3 ->
  pick sd l3 s3 = pick sd l1 s1 ->
  let w1 := exec (cycle io1 n1) w in
  let w2 := exec (cycle io2 n2) w1 in
  let w3 := exec (cycle io3 n3) w2 in
  (exists text, attempts sd w w1 = [(text, true)]) ->
  (exists text, attempts sd w1 w2 = [(text, true)]) ->
  exists ok, attempts sd w2 w3 = [(alert_text sd (pick sd l1 s1), ok)].
Proof.
  intros H1 H2 H3 Hback w1 w2 w3 [t1 Ht1] [t2 Ht2].
  assert (Hgt : gt (pick sd l1 s1) (threshold sd (vars w)) = true).
  { destruct (cycle_attempts_cases sd io1 n1 w l1 s1 H1) as [[Ha _]|[_ Hs]];
      cbn zeta in *.
    - unfold shouldAlert in Ha. now apply andb_true_iff in Ha as [Ha _].
    - fold w1 in Hs. rewrite Hs in Ht1. discriminate Ht1. }
  assert (Hm1 : last_alerted sd (vars w1) = Some (pick sd l1 s1)).
  { pose proof (cycle_memory sd io1 n1 w l1 s1 H1) as Hm. fold w1 in Hm.
    now rewrite Ht1 in Hm. }
  assert (Hne : strict_neq (pick sd l2 s2) (pick sd l1 s1) = true).
  { destruct (cycle_attempts_cases sd io2 n2 w1 l2 s2 H2) as [[Ha _]|[_ Hs]];
      cbn zeta in *.
    - rewrite Hm1 in Ha. unfold shouldAlert in Ha.
      now apply andb_true_iff in Ha as [_ Ha].
    - fold w2 in Hs. rewrite Hs in Ht2. discriminate Ht2. }
  assert (Hm2 : last_alerted sd (vars w2) = Some (pick sd l2 s2)).
  { pose proof (cycle_memory sd io2 n2 w1 l2 s2 H2) as Hm. fold w2 in Hm.
    now rewrite Ht2 in Hm. }
  destruct (cycle_attempts_cases sd io3 n3 w2 l3 s3 H3) as [[_ Hex]|[Ha _]];
    cbn zeta in *.
  - fold w3 in Hex. now rewrite Hback in Hex.
  - exfalso. rewrite Hback, Hm2 in Ha. unfold w2, w1 in Ha.
    rewrite !cycle_thresholds in Ha. unfold shouldAlert in Ha.
    rewrite Hgt in Ha. cbn [andb null_or_differs] in Ha.
    rewrite strict_neq_sym, Hne in Ha. discriminate Ha.
Qed.

Lemma memory_is_one_value_deep_witness :
  fetch_outcome fetch_6000000 = Sample 6000000%float 0%float
  /\ fetch_outcome fetch_7250000 = Sample 7250000%float 0%float
  /\ attempts Long startup after_first = [(alert_text Long 6000000%float, true)]
  /\ attempts Long after_first (exec (cycle fetch_7250000 0) after_first)
     = [(alert_text Long 7250000%float, true)]
  /\ exists ok,
       attempts Long (exec (cycle fetch_7250000 0) after_first)
         (exec (cycle fetch_6000000 0)
            (exec (cycle fetch_7250000 0) after_first))
       = [(alert_text Long 6000000%float, ok)].
Proof.
  assert (H6 : fetch_outcome fetch_6000000 = Sample 6000000%float 0%float)
    by (vm_compute; reflexivity).
  assert (H7 : fetch_outcome fetch_7250000 = Sample 7250000%float 0%float)
    by (vm_compute; reflexivity).
  assert (A1 : attempts Long startup after_first = [(alert_text Long 6000000%float, true)])
    by (vm_compute; reflexivity).
  assert (A2 : attempts Long after_first
                 (exec (cycle fetch_7250000 0) after_first)
               = [(alert_text Long 7250000%float, true)])
    by (vm_compute; reflexivity).
  split; [exact H6|]. split; [exact H7|]. split; [exact A1|]. split; [exact A2|].
  refine (memory_is_one_value_deep Long fetch_6000000 fetch_7250000 fetch_6000000
            0 0 0 startup _ _ _ _ _ _ H6 H7 H6 eq_refl _ _).
  - eexists. exact A1.
  - eexists. exact A2.
Defined.

(** ** The unit of a dispatched value *)

Lemma SFle_lt_trans (m0 : positive) (e0 : Z) (t v : spec_float) :
  SFleb (S754_finite false m0 e0) t = true ->
  SFltb t v = true ->
  SFleb (S754_finite false m0 e0) v = true.
Proof.
  unfold SFleb, SFltb, SFcompare.
  destruct t as [st|st| |st mt et], v as [sv|sv| |sv mv ev];
    try (destruct st); try (destruct sv); cbn;
    try (intros H; discriminate H); try (intros _ H; discriminate H);
    try reflexivity.
  rewrite !Pos.compare_cont_spec. cbn.
  destruct (Z.compare_spec e0 et) as [E1|E1|E1];
    destruct (Z.compare_spec et ev) as [E2|E2|E2];
    destruct (Z.compare_spec e0 ev) as [E3|E3|E3];
    try lia; try reflexivity;
    try (intros H; discriminate H); try (intros _ H; discriminate H).
  destruct (Pos.compare_spec m0 mt) as [P1|P1|P1];
    destruct (Pos.compare_spec mt mv) as [P2|P2|P2];
    destruct (Pos.compare_spec m0 mv) as [P3|P3|P3];
    try lia; try reflexivity;
    try (intros H; discriminate H); try (intros _ H; discriminate H).
Qed.

Lemma Prim2SF_1000000 :
  Prim2SF 1000000%float = S754_finite false 8589934592000000 (-33).
Proof. vm_compute. reflexivity. Qed.

Lemma above_a_million (v t : number) :
  ge t 1000000%float = true -> gt v t = true -> ge v 1000000%float = true.
Proof.
  unfold ge, gt. rewrite !FloatAxioms.leb_spec, FloatAxioms.ltb_spec.
  rewrite Prim2SF_1000000. apply SFle_lt_trans.
Qed.

(** X11. While the threshold of a side is at least 1,000,000, every
    message dispatched for the side gives its value in millions: the
    compact form of the dispatched value ends in [M]. *)
Theorem alerts_above_a_million_are_in_millions
    (sd : side) (io : Network) (n : nat) (w : World) (l s : number)
    (text : string) (ok : bool) :
  fetch_outcome io = Sample l s ->
  ge (threshold sd (vars w)) 1000000%float = true ->
  In (text, ok) (attempts sd w (exec (cycle io n) w)) ->
  text = alert_text sd (pick sd l s)
  /\ formatShortValue (pick sd l s)
     = Number_toString
         (truncToDecimals (PrimFloat.div (pick sd l s) 1000000%float) 2) +:+ "M".
Proof.
  intros H Ht Hin.
  destruct (cycle_attempts_cases sd io n w l s H) as [[Ha [ok' Hex]]|[_ Hs]];
    cbn zeta in *.
  - rewrite Hex in Hin. destruct Hin as [Hin|[]]. inversion Hin; subst.
    split; [reflexivity|].
    unfold shouldAlert in Ha. apply andb_true_iff in Ha as [Ha _].
    unfold formatShortValue. now rewrite (above_a_million _ _ Ht Ha).
  - rewrite Hs in Hin. destruct Hin.
Qed.

Lemma alerts_above_a_million_are_in_millions_witness :
  fetch_outcome fetch_6000000 = Sample 6000000%float 0%float
  /\ ge (longThreshold (vars startup)) 1000000%float = true
  /\ attempts Long startup after_first = [(alert_text Long 6000000%float, true)]
  /\ formatShortValue 6000000%float
     = Number_toString
         (truncToDecimals (PrimFloat.div 6000000%float 1000000%float) 2) +:+ "M".
Proof.
  assert (H6 : fetch_outcome fetch_6000000 = Sample 6000000%float 0%float)
    by (vm_compute; reflexivity).
  assert (Ht : ge (threshold Long (vars startup)) 1000000%float = true)
    by (vm_compute; reflexivity).
  assert (A1 : attempts Long startup after_first = [(alert_text Long 6000000%float, true)])
    by (vm_compute; reflexivity).
  split; [exact H6|]. split; [exact Ht|]. split; [exact A1|].
  refine (proj2 (alerts_above_a_million_are_in_millions Long fetch_6000000 0 startup
                   _ _ (alert_text Long 6000000%float) true H6 Ht _)).
  change (exec (cycle fetch_6000000 0) startup) with after_first.
  rewrite A1. now left.
Defined.
